(** * The conversation client of static/script.js

    A shallow embedding of the submit handler and of [appendMessage], run by
    a small model of the browser's event loop, and the properties of the
    chat exchange proved on it. *)

From Stdlib Require Import List String Ascii NArith Bool Lia PeanoNat Wf_nat.
Import ListNotations.

Set Warnings "-register-all".
Local Open Scope string_scope.
Local Open Scope N_scope.
Local Open Scope list_scope.

(** ** JavaScript strings

    A JavaScript string is a sequence of 16-bit code units. *)

Definition JSString : Type := list N.

(** A string literal of the source (all of them are ASCII). *)
Definition js (s : string) : JSString :=
  map N_of_ascii (list_ascii_of_string s).

Definition code_unit (c : N) : Prop := c < 65536.
Definition well_formed (s : JSString) : Prop := Forall code_unit s.

Fixpoint jsstring_eqb (s t : JSString) : bool :=
  match s, t with
  | [], [] => true
  | c :: s', d :: t' => (c =? d) && jsstring_eqb s' t'
  | _, _ => false
  end.

Fixpoint starts_with (prefix s : JSString) : bool :=
  match prefix, s with
  | [], _ => true
  | c :: prefix', d :: s' => (c =? d) && starts_with prefix' s'
  | _ :: _, [] => false
  end.

(** [String.prototype.trim] strips the code units that ECMAScript calls
    WhiteSpace or LineTerminator from both ends. *)
Definition is_white_space (c : N) : bool :=
  (c =? 0x09) || (c =? 0x0A) || (c =? 0x0B) || (c =? 0x0C) || (c =? 0x0D)
  || (c =? 0x20) || (c =? 0xA0) || (c =? 0x1680)
  || ((0x2000 <=? c) && (c <=? 0x200A))
  || (c =? 0x2028) || (c =? 0x2029) || (c =? 0x202F) || (c =? 0x205F)
  || (c =? 0x3000) || (c =? 0xFEFF).

Fixpoint trimStart (s : JSString) : JSString :=
  match s with
  | [] => []
  | c :: s' => if is_white_space c then trimStart s' else s
  end.

Definition trimEnd (s : JSString) : JSString := rev (trimStart (rev s)).

Definition trim (s : JSString) : JSString := trimEnd (trimStart s).

(** ToBoolean on a string, as [if (message)] applies it. *)
Definition truthy (s : JSString) : bool :=
  match s with [] => false | _ :: _ => true end.

(** ** Values and errors *)

(** The values the handler holds: what [response.json()] builds, and
    [undefined], which reading an absent property gives.  A number is only
    ever turned into text here, so it is carried as the text that
    Number::toString gives for it.  The properties of an object are listed
    in enumeration order. *)
Inductive Value : Type :=
| VUndefined
| VNull
| VBoolean (b : bool)
| VNumber (shown : JSString)
| VString (s : JSString)
| VArray (items : list Value)
| VObject (props : list (JSString * Value)).

(** A thrown value: every one the handler can catch is an error object. *)
Record Error : Type := mkError { error_name : JSString; error_message : JSString }.

Definition Completion (A : Type) : Type := (Error + A)%type.

(** ** The document *)

Record ElementOf (child : Type) : Type := mkElement {
  localName : JSString;
  classList : list JSString;
  childNodes : list child
}.
Arguments mkElement {child} _ _ _.
Arguments localName {child} _.
Arguments classList {child} _.
Arguments childNodes {child} _.

Inductive Node : Type :=
| Text (data : JSString)
| Elem (e : ElementOf Node).

Definition Element : Type := ElementOf Node.

(** The [textContent] getter: the data of all descendant text nodes. *)
Fixpoint textContent (n : Node) : JSString :=
  match n with
  | Text d => d
  | Elem e =>
      (fix all (l : list Node) : JSString :=
         match l with
         | [] => []
         | c :: l' => textContent c ++ all l'
         end) (childNodes e)
  end.

(** What the script leaves to the browser: the wording of the engine's own
    errors and the geometry of the conversation box. *)
Class Browser : Type := {
  null_read_message : JSString;       (* TypeError of reading a property of null *)
  undefined_read_message : JSString;  (* TypeError of reading a property of undefined *)
  no_primitive_message : JSString;    (* TypeError of an object with no primitive value *)
  empty_token_message : JSString;     (* SyntaxError of an empty class token *)
  bad_token_message : JSString;       (* InvalidCharacterError of a class token with a space *)
  clientHeight : N;                 (* height of the conversation box *)
  contentHeight : list Node -> N    (* height of what it holds, laid out *)
}.

(** A fetch request, as the arguments of [fetch] describe it. *)
Record Request : Type := mkRequest {
  url : JSString;
  method : JSString;
  headers : list (JSString * JSString);
  body : option JSString
}.

(** A response, as the handler sees it. *)
Record Response : Type := mkResponse { status : N }.

(** [response.ok]: the status is in the range 200 to 299. *)
Definition ok (r : Response) : bool := (200 <=? status r) && (status r <=? 299).

(** The promises the script awaits, numbered as they are made. *)
Inductive Promise : Type -> Type :=
| ResponsePromise (id : nat) : Promise Response   (* what [fetch] returns *)
| BodyPromise (id : nat) : Promise Value.         (* what [response.json()] returns *)

Definition promise_id {X : Type} (p : Promise X) : nat :=
  match p with ResponsePromise id => id | BodyPromise id => id end.

(** The page view: the two elements the script looks up, the submit event
    being dispatched, and the traffic the script has started. *)
Record Page : Type := mkPage {
  input_value : JSString;               (* #message-input, its value *)
  conversation : list Node;             (* #conversation, its children *)
  scrollTop : N;                        (* #conversation, its scroll offset *)
  defaultPrevented : bool;              (* the submit event's canceled flag *)
  requests : list (nat * Request);      (* fetch calls, each with its promise *)
  body_reads : list (nat * Response);   (* json() calls, each with its promise *)
  next_promise : nat
}.

(** ** Conversions of the language *)

Definition TypeError (msg : JSString) : Error := mkError (js "TypeError") msg.

Fixpoint has_own (key : JSString) (props : list (JSString * Value)) : bool :=
  match props with
  | [] => false
  | (k, _) :: props' => jsstring_eqb k key || has_own key props'
  end.

Fixpoint own (key : JSString) (props : list (JSString * Value)) : option Value :=
  match props with
  | [] => None
  | (k, v) :: props' => if jsstring_eqb k key then Some v else own key props'
  end.

(** ToString.  An array goes through [Array.prototype.join]; a parsed
    object either inherits [Object.prototype.toString] or, when it has a
    [toString] property of its own (never a function), has no primitive
    value at all. *)
Fixpoint ToString `{Browser} (v : Value) : Completion JSString :=
  match v with
  | VUndefined => inr (js "undefined")
  | VNull => inr (js "null")
  | VBoolean b => inr (if b then js "true" else js "false")
  | VNumber shown => inr shown
  | VString s => inr s
  | VArray items =>
      (fix join (l : list Value) : Completion JSString :=
         match l with
         | [] => inr []
         | x :: l' =>
             match match x with
                   | VUndefined | VNull => inr []
                   | _ => ToString x
                   end with
             | inl e => inl e
             | inr s =>
                 match l' with
                 | [] => inr s
                 | _ :: _ =>
                     match join l' with
                     | inl e => inl e
                     | inr t => inr (s ++ js "," ++ t)
                     end
                 end
             end
         end) items
  | VObject props =>
      if has_own (js "toString") props
      then inl (TypeError no_primitive_message)
      else inr (js "[object Object]")
  end.

(** [data.response]: a property read.  Reading from [null] or
    [undefined] throws; a primitive or an array has no such property. *)
Definition get_response `{Browser} (data : Value) : Completion Value :=
  match data with
  | VNull => inl (TypeError null_read_message)
  | VUndefined => inl (TypeError undefined_read_message)
  | VObject props =>
      match own (js "response") props with
      | Some v => inr v
      | None => inr VUndefined
      end
  | _ => inr VUndefined
  end.

(** ** JSON.stringify *)

Definition hex_digit (n : N) : N := if n <? 10 then 48 + n else 87 + n.

(** [\uXXXX], in lower case. *)
Definition UnicodeEscape (c : N) : JSString :=
  [92; 117; hex_digit (c / 4096 mod 16); hex_digit (c / 256 mod 16);
   hex_digit (c / 16 mod 16); hex_digit (c mod 16)].

Definition is_leading_surrogate (c : N) : bool := (0xD800 <=? c) && (c <=? 0xDBFF).
Definition is_trailing_surrogate (c : N) : bool := (0xDC00 <=? c) && (c <=? 0xDFFF).

(** The escape of one code unit that is not half of a surrogate pair. *)
Definition quote_unit (c : N) : JSString :=
  if c =? 0x08 then js "\b"
  else if c =? 0x09 then js "\t"
  else if c =? 0x0A then js "\n"
  else if c =? 0x0C then js "\f"
  else if c =? 0x0D then js "\r"
  else if c =? 0x22 then [92; 34]
  else if c =? 0x5C then js "\\"
  else if (c <? 0x20) || is_leading_surrogate c || is_trailing_surrogate c
       then UnicodeEscape c
  else [c].

(** The inside of a quoted string: a surrogate pair is kept, a lone
    surrogate is escaped. *)
Fixpoint quote_units (s : JSString) : JSString :=
  match s with
  | [] => []
  | c :: s' =>
      match s' with
      | d :: s'' =>
          if is_leading_surrogate c && is_trailing_surrogate d
          then c :: d :: quote_units s''
          else quote_unit c ++ quote_units s'
      | [] => quote_unit c
      end
  end.

Definition QuoteJSONString (s : JSString) : JSString :=
  [34] ++ quote_units s ++ [34].

Fixpoint join_comma (parts : list JSString) : JSString :=
  match parts with
  | [] => []
  | [p] => p
  | p :: parts' => p ++ js "," ++ join_comma parts'
  end.

(** [JSON.stringify]; [None] is the [undefined] it returns for
    [undefined]. *)
Fixpoint JSON_stringify (v : Value) : option JSString :=
  match v with
  | VUndefined => None
  | VNull => Some (js "null")
  | VBoolean b => Some (if b then js "true" else js "false")
  | VNumber shown => Some shown
  | VString s => Some (QuoteJSONString s)
  | VArray items =>
      Some (js "[" ++
            join_comma
              ((fix each (l : list Value) : list JSString :=
                  match l with
                  | [] => []
                  | x :: l' =>
                      match JSON_stringify x with
                      | Some t => t
                      | None => js "null"
                      end :: each l'
                  end) items)
            ++ js "]")
  | VObject props =>
      Some (js "{" ++
            join_comma
              ((fix each (l : list (JSString * Value)) : list JSString :=
                  match l with
                  | [] => []
                  | (k, x) :: l' =>
                      match JSON_stringify x with
                      | Some t => (QuoteJSONString k ++ js ":" ++ t) :: each l'
                      | None => each l'
                      end
                  end) props)
            ++ js "}")
  end.

(** ** Reading a JSON string back

    The inverse of [QuoteJSONString], to say what text a body carries. *)

Definition unhex (d : N) : option N :=
  if (48 <=? d) && (d <=? 57) then Some (d - 48)
  else if (97 <=? d) && (d <=? 102) then Some (d - 87)
  else if (65 <=? d) && (d <=? 70) then Some (d - 55)
  else None.

(** The character that a two-character escape stands for. *)
Definition unescape (e : N) : option N :=
  if e =? 98 then Some 0x08          (* \b *)
  else if e =? 116 then Some 0x09    (* \t *)
  else if e =? 110 then Some 0x0A    (* \n *)
  else if e =? 102 then Some 0x0C    (* \f *)
  else if e =? 114 then Some 0x0D    (* \r *)
  else if e =? 34 then Some 0x22
  else if e =? 92 then Some 0x5C
  else if e =? 47 then Some 0x2F
  else None.

Definition and_then (c : N) (r : option (JSString * JSString))
    : option (JSString * JSString) :=
  match r with
  | Some (m, rest) => Some (c :: m, rest)
  | None => None
  end.

(** The inside of a JSON string, up to its closing quote: the text it
    denotes and what follows the quote. *)
Fixpoint unquote_units (s : JSString) : option (JSString * JSString) :=
  match s with
  | [] => None
  | c :: s1 =>
      if c =? 34 then Some ([], s1)
      else if c =? 92 then
        match s1 with
        | [] => None
        | e :: s2 =>
            if e =? 117 then
              match s2 with
              | h3 :: h2 :: h1 :: h0 :: s6 =>
                  match unhex h3, unhex h2, unhex h1, unhex h0 with
                  | Some d3, Some d2, Some d1, Some d0 =>
                      and_then (4096 * d3 + 256 * d2 + 16 * d1 + d0) (unquote_units s6)
                  | _, _, _, _ => None
                  end
              | _ => None
              end
            else
              match unescape e with
              | Some x => and_then x (unquote_units s2)
              | None => None
              end
        end
      else if c <? 0x20 then None
      else and_then c (unquote_units s1)
  end.

Fixpoint strip_prefix (prefix s : JSString) : option JSString :=
  match prefix, s with
  | [], _ => Some s
  | c :: prefix', d :: s' => if c =? d then strip_prefix prefix' s' else None
  | _ :: _, [] => None
  end.

(** The text that a body of the form [{"message":"..."}] carries. *)
Definition message_of_body (b : JSString) : option JSString :=
  match strip_prefix (js "{" ++ [34] ++ js "message" ++ [34] ++ js ":" ++ [34]) b with
  | Some r =>
      match unquote_units r with
      | Some (m, rest) => if jsstring_eqb rest (js "}") then Some m else None
      | None => None
      end
  | None => None
  end.


(** ** Synchronous code: state and exceptions *)

Definition JS (A : Type) : Type := Page -> Completion A * Page.

Definition js_ret {A : Type} (a : A) : JS A := fun p => (inr a, p).

Definition js_throw {A : Type} (e : Error) : JS A := fun p => (inl e, p).

Definition js_bind {A B : Type} (m : JS A) (k : A -> JS B) : JS B :=
  fun p =>
    match m p with
    | (inl e, p') => (inl e, p')
    | (inr a, p') => k a p'
    end.

Definition js_lift {A : Type} (c : Completion A) : JS A := fun p => (c, p).

Declare Scope js_scope.
Delimit Scope js_scope with js.
Notation "x <- m ; k" := (js_bind m (fun x => k))
  (at level 61, m at next level, right associativity) : js_scope.
Notation "m ;; k" := (js_bind m (fun _ => k))
  (at level 61, right associativity) : js_scope.

(** *** The operations of the DOM that the script calls *)

Definition set_input_value (v : JSString) (p : Page) : Page :=
  mkPage v (conversation p) (scrollTop p) (defaultPrevented p)
         (requests p) (body_reads p) (next_promise p).

Definition set_conversation (cs : list Node) (p : Page) : Page :=
  mkPage (input_value p) cs (scrollTop p) (defaultPrevented p)
         (requests p) (body_reads p) (next_promise p).

Definition set_scrollTop (y : N) (p : Page) : Page :=
  mkPage (input_value p) (conversation p) y (defaultPrevented p)
         (requests p) (body_reads p) (next_promise p).

Definition set_defaultPrevented (b : bool) (p : Page) : Page :=
  mkPage (input_value p) (conversation p) (scrollTop p) b
         (requests p) (body_reads p) (next_promise p).

(** [event.preventDefault()] *)
Definition preventDefault : JS unit :=
  fun p => (inr tt, set_defaultPrevented true p).

(** [input.value], read and written *)
Definition input_value_get : JS JSString := fun p => (inr (input_value p), p).

Definition input_value_set (v : JSString) : JS unit :=
  fun p => (inr tt, set_input_value v p).

(** [document.createElement]: a detached element, with no class and no
    child. *)
Definition createElement (name : JSString) : JS Element :=
  js_ret (mkElement name [] []).

Definition is_ascii_whitespace (c : N) : bool :=
  (c =? 0x09) || (c =? 0x0A) || (c =? 0x0C) || (c =? 0x0D) || (c =? 0x20).

Definition DOMException (name msg : JSString) : Error := mkError name msg.

(** [classList.add]: the token is checked, then added unless present. *)
Definition classList_add `{Browser} (e : Element) (token : JSString) : JS Element :=
  match token with
  | [] => js_throw (DOMException (js "SyntaxError") empty_token_message)
  | _ :: _ =>
      if existsb is_ascii_whitespace token
      then js_throw (DOMException (js "InvalidCharacterError") bad_token_message)
      else js_ret (mkElement (localName e)
                     (if existsb (jsstring_eqb token) (classList e)
                      then classList e else classList e ++ [token])
                     (childNodes e))
  end.

(** A nullable string argument of the DOM: [null] and [undefined] stand
    for the empty string, anything else goes through ToString. *)
Definition nullable_string `{Browser} (v : Value) : Completion JSString :=
  match v with
  | VUndefined | VNull => inr []
  | _ => ToString v
  end.

(** The [textContent] setter.  The children are replaced by one text
    node, or by none when the string is empty. *)
Definition textContent_set `{Browser} (e : Element) (v : Value) : JS Element :=
  (s <- js_lift (nullable_string v) ;
   js_ret (mkElement (localName e) (classList e)
             match s with [] => [] | _ :: _ => [Text s] end))%js.

(** [conversation.appendChild], for a detached element. *)
Definition appendChild (e : Element) : JS unit :=
  fun p => (inr tt, set_conversation (conversation p ++ [Elem e]) p).

(** The geometry of the conversation box: [scrollHeight] is never less
    than the box, and the furthest scroll offset leaves its last line at
    the bottom of the box. *)
Definition scrollHeight_of `{Browser} (cs : list Node) : N :=
  N.max (contentHeight cs) clientHeight.

Definition scrollTopMax `{Browser} (cs : list Node) : N :=
  scrollHeight_of cs - clientHeight.

Definition scrollHeight `{Browser} : JS N :=
  fun p => (inr (scrollHeight_of (conversation p)), p).

(** The [scrollTop] setter clamps the offset to what can be scrolled. *)
Definition scrollTop_set `{Browser} (y : N) : JS unit :=
  fun p => (inr tt, set_scrollTop (N.min y (scrollTopMax (conversation p))) p).

(** [fetch] starts the request and returns its promise. *)
Definition fetch (u : JSString) (m : JSString) (hs : list (JSString * JSString))
    (b : option JSString) : JS (Promise Response) :=
  fun p =>
    (inr (ResponsePromise (next_promise p)),
     mkPage (input_value p) (conversation p) (scrollTop p) (defaultPrevented p)
            (requests p ++ [(next_promise p, mkRequest u m hs b)])
            (body_reads p) (S (next_promise p))).

(** [response.json()] starts reading the body and returns its promise. *)
Definition json (r : Response) : JS (Promise Value) :=
  fun p =>
    (inr (BodyPromise (next_promise p)),
     mkPage (input_value p) (conversation p) (scrollTop p) (defaultPrevented p)
            (requests p)
            (body_reads p ++ [(next_promise p, r)]) (S (next_promise p))).

(** *** appendMessage (script.js, lines 27 to 34)

    The page has its conversation element, so the lookup of line 28 always
    finds it: the operations on it act on the page directly. *)

Definition appendMessage `{Browser} (sender : JSString) (text : Value) : JS unit :=
  (messageElement <- createElement (js "div") ;
   messageElement <- classList_add messageElement (sender ++ js "-message") ;
   messageElement <- textContent_set messageElement text ;
   appendChild messageElement ;;
   h <- scrollHeight ;
   scrollTop_set h)%js.

(** ** Asynchronous code

    An async function is a tree of synchronous runs and awaits; between
    two awaits it runs without interruption. *)

Inductive Async (R : Type) : Type :=
| Return (r : R)
| Throw (e : Error)
| Run {X : Type} (m : JS X) (k : Completion X -> Async R)
| Await {X : Type} (p : Promise X) (k : Completion X -> Async R).
Arguments Return {R} _.
Arguments Throw {R} _.
Arguments Run {R X} _ _.
Arguments Await {R X} _ _.

Fixpoint async_bind {A B : Type} (m : Async A) (f : A -> Async B) : Async B :=
  match m with
  | Return a => f a
  | Throw e => Throw e
  | Run s k => Run s (fun c => async_bind (k c) f)
  | Await p k => Await p (fun c => async_bind (k c) f)
  end.

(** [try { m } catch (error) { h error }] *)
Fixpoint try_catch {A : Type} (m : Async A) (h : Error -> Async A) : Async A :=
  match m with
  | Return a => Return a
  | Throw e => h e
  | Run s k => Run s (fun c => try_catch (k c) h)
  | Await p k => Await p (fun c => try_catch (k c) h)
  end.

(** Resuming with a settled promise: its value, or its reason thrown. *)
Definition settled {X : Type} (c : Completion X) : Async X :=
  match c with inl e => Throw e | inr x => Return x end.

(** A synchronous call. *)
Definition call {X : Type} (m : JS X) : Async X := Run m settled.

Declare Scope async_scope.
Delimit Scope async_scope with async.
Notation "x <- m ; k" := (async_bind m (fun x => k))
  (at level 61, m at next level, right associativity) : async_scope.
Notation "m ;; k" := (async_bind m (fun _ => k))
  (at level 61, right associativity) : async_scope.
Notation "'try' m 'catch' x => h" := (try_catch m (fun x => h))
  (at level 61, m at level 61, x name, h at level 61) : async_scope.

(** [await m]: the call [m] returns a promise, and the function sleeps
    until it settles. *)
Definition await {X : Type} (m : JS (Promise X)) : Async X :=
  (promise <- call m ; Await promise settled)%async.

(** *** The submit handler (script.js, lines 1 to 25) *)

Definition handler `{Browser} : Async unit :=
  (call preventDefault ;;
   value <- call input_value_get ;
   let message := trim value in
   if truthy message then
     call (appendMessage (js "user") (VString message)) ;;
     call (input_value_set []) ;;
     try
       (response <- await (fetch (js "/chat") (js "POST")
                        [(js "Content-Type", js "application/json")]
                        (JSON_stringify (VObject [(js "message", VString message)]))) ;
        (if negb (ok response)
         then Throw (mkError (js "Error") (js "Network response was not ok"))
         else Return tt) ;;
        data <- await (json response) ;
        text <- call (js_lift (get_response data)) ;
        call (appendMessage (js "bot") text))
     catch error =>
       call (appendMessage (js "bot") (VString (js "Error: " ++ error_message error)))
   else Return tt)%async.

(** The handler, resumed after line 9 with the settled fetch. *)
Definition after_fetch `{Browser} (c : Completion Response) : Async unit :=
  (try
     (response <- settled c ;
      (if negb (ok response)
       then Throw (mkError (js "Error") (js "Network response was not ok"))
       else Return tt) ;;
      data <- await (json response) ;
      text <- call (js_lift (get_response data)) ;
      call (appendMessage (js "bot") text))
   catch error =>
     call (appendMessage (js "bot") (VString (js "Error: " ++ error_message error))))%async.

(** The handler, resumed after line 19 with the settled body. *)
Definition after_json `{Browser} (c : Completion Value) : Async unit :=
  (try
     (data <- settled c ;
      text <- call (js_lift (get_response data)) ;
      call (appendMessage (js "bot") text))
   catch error =>
     call (appendMessage (js "bot") (VString (js "Error: " ++ error_message error))))%async.

(** ** The event loop *)

(** A call of the handler asleep at an await. *)
Inductive Suspended : Type :=
| Susp {X : Type} (p : Promise X) (k : Completion X -> Async unit).

Inductive Outcome : Type :=
| Finished (c : Completion unit)
| Sleeping (t : Suspended).

(** Run to the next await, or to the end. *)
Fixpoint run (a : Async unit) (p : Page) : Outcome * Page :=
  match a with
  | Return r => (Finished (inr r), p)
  | Throw e => (Finished (inl e), p)
  | Run m k => let (c, p') := m p in run (k c) p'
  | Await q k => (Sleeping (Susp q k), p)
  end.

Record World : Type := mkWorld {
  page : Page;
  waiting : list Suspended;   (* the calls asleep, the latest first *)
  unhandled : list Error      (* rejections of the handler that nothing catches *)
}.

(** The continuation waiting for promise [p], if any. *)
Fixpoint awaiting {X : Type} (p : Promise X) (ts : list Suspended)
    : option (Completion X -> Async unit) :=
  match ts with
  | [] => None
  | Susp q k :: ts' =>
      match p in Promise X, q in Promise Y
            return (Completion Y -> Async unit) ->
                   option (Completion X -> Async unit) ->
                   option (Completion X -> Async unit) with
      | ResponsePromise i, ResponsePromise j =>
          fun k rest => if Nat.eqb i j then Some k else rest
      | BodyPromise i, BodyPromise j =>
          fun k rest => if Nat.eqb i j then Some k else rest
      | _, _ => fun _ rest => rest
      end k (awaiting p ts')
  end.

Definition forget (id : nat) (ts : list Suspended) : list Suspended :=
  filter (fun t => match t with Susp q _ => negb (Nat.eqb (promise_id q) id) end) ts.

(** Run a piece of the handler and file what becomes of it. *)
Definition dispatch (a : Async unit) (w : World) : World :=
  match run a (page w) with
  | (Finished (inr _), p) => mkWorld p (waiting w) (unhandled w)
  | (Finished (inl e), p) => mkWorld p (waiting w) (unhandled w ++ [e])
  | (Sleeping t, p) => mkWorld p (t :: waiting w) (unhandled w)
  end.

(** What happens to the page from outside. *)
Inductive Event : Type :=
| UserTypes (s : JSString)                            (* the input is edited *)
| UserSubmits                                         (* the form is submitted *)
| Settles {X : Type} (p : Promise X) (c : Completion X).  (* a promise settles *)

Definition step `{Browser} (ev : Event) (w : World) : option World :=
  match ev with
  | UserTypes s =>
      Some (mkWorld (set_input_value s (page w)) (waiting w) (unhandled w))
  | UserSubmits =>
      Some (dispatch handler
              (mkWorld (set_defaultPrevented false (page w)) (waiting w) (unhandled w)))
  | Settles p c =>
      match awaiting p (waiting w) with
      | Some k =>
          Some (dispatch (k c)
                  (mkWorld (page w) (forget (promise_id p) (waiting w)) (unhandled w)))
      | None => None
      end
  end.

Fixpoint steps `{Browser} (evs : list Event) (w : World) : option World :=
  match evs with
  | [] => Some w
  | ev :: evs' =>
      match step ev w with
      | Some w' => steps evs' w'
      | None => None
      end
  end.

(** A freshly loaded page: nothing typed, nothing said, nothing sent. *)
Definition fresh_page : Page := mkPage [] [] 0 false [] [] 0.
Definition fresh : World := mkWorld fresh_page [] [].

(** A message as [appendMessage] renders it. *)
Definition message_node (sender text : JSString) : Node :=
  Elem (mkElement (js "div") [sender ++ js "-message"]
          match text with [] => [] | _ :: _ => [Text text] end).

(** A browser to run examples in: the wording of Chromium's errors, a box
    of 400 pixels and 20 pixels to each child. *)
#[export] Instance chromium : Browser := {|
  null_read_message := js "Cannot read properties of null (reading 'response')";
  undefined_read_message := js "Cannot read properties of undefined (reading 'response')";
  no_primitive_message := js "Cannot convert object to primitive value";
  empty_token_message := js "The token provided must not be empty.";
  bad_token_message := js "The token provided contains HTML space characters, which are not valid in tokens.";
  clientHeight := 400;
  contentHeight := fun cs => 20 * N.of_nat (List.length cs)
|}.

(** The request of line 9, for the trimmed text [message]. *)
Definition chat_request (message : JSString) : Request :=
  mkRequest (js "/chat") (js "POST")
    [(js "Content-Type", js "application/json")]
    (Some (js "{" ++ QuoteJSONString (js "message") ++ js ":"
           ++ QuoteJSONString message ++ js "}")).

(** The page once [n] is appended and scrolled into view. *)
Definition appended `{Browser} (n : Node) (p : Page) : Page :=
  set_scrollTop (scrollTopMax (conversation p ++ [n]))
    (set_conversation (conversation p ++ [n]) p).

(** The calls the handler can leave asleep: one at line 9, one at line
    19. *)
Definition of_handler `{Browser} (t : Suspended) : Prop :=
  match t with
  | Susp p k =>
      match p in Promise X return (Completion X -> Async unit) -> Prop with
      | ResponsePromise _ => fun k => k = after_fetch
      | BodyPromise _ => fun k => k = after_json
      end k
  end.

(** The page when the handler falls asleep at line 9. *)
Definition submitted `{Browser} (p : Page) : Page :=
  let message := trim (input_value p) in
  let cs := conversation p ++ [message_node (js "user") message] in
  mkPage [] cs (scrollTopMax cs) true
         (requests p ++ [(next_promise p, chat_request message)])
         (body_reads p) (S (next_promise p)).

(** The page when the handler falls asleep at line 19. *)
Definition reading (r : Response) (p : Page) : Page :=
  mkPage (input_value p) (conversation p) (scrollTop p) (defaultPrevented p)
         (requests p) (body_reads p ++ [(next_promise p, r)]) (S (next_promise p)).

(** The entry that reports a failure. *)
Definition error_node (description : JSString) : Node :=
  message_node (js "bot") (js "Error: " ++ description).

(** The description of a failed reply: the message of the error that
    [fetch] rejects with, or the handler's own words for a status outside
    200 to 299. *)
Definition failure_description (c : Completion Response) : option JSString :=
  match c with
  | inl e => Some (error_message e)
  | inr r =>
      if (status r <? 200) || (299 <? status r)
      then Some (js "Network response was not ok")
      else None
  end.

(** The event is accepted and appends [n], and nothing else changes in
    the transcript, the traffic or the unhandled errors. *)
Definition renders `{Browser} (ev : Event) (w : World) (n : Node) : Prop :=
  exists w' : World,
    step ev w = Some w'
    /\ conversation (page w') = conversation (page w) ++ [n]
    /\ requests (page w') = requests (page w)
    /\ unhandled w' = unhandled w.

(** What the handler appends when the body read settles with [c]. *)
Definition body_entry `{Browser} (c : Completion Value) : Node :=
  match c with
  | inl e => error_node (error_message e)
  | inr data =>
      match get_response data with
      | inl e => error_node (error_message e)
      | inr text =>
          match nullable_string text with
          | inl e => error_node (error_message e)
          | inr s => message_node (js "bot") s
          end
      end
  end.

(** A chat request for the text [m]: where it goes, how, and what its
    body is and reads back as. *)
Definition is_chat_post (m : JSString) (rq : Request) : Prop :=
  url rq = js "/chat"
  /\ method rq = js "POST"
  /\ headers rq = [(js "Content-Type", js "application/json")]
  /\ body rq = JSON_stringify (VObject [(js "message", VString m)])
  /\ body rq = Some (js "{" ++ QuoteJSONString (js "message") ++ js ":"
                     ++ QuoteJSONString m ++ js "}")
  /\ option_map message_of_body (body rq) = Some (Some m).

(** *** Bookkeeping of the sleeping calls and of the transcript *)

(** The number of the promise a sleeping call waits for. *)
Definition task_id (t : Suspended) : nat :=
  match t with Susp q _ => promise_id q end.

(** A world as the page reaches it: the calls asleep are the handler's,
    no two of them wait for the same promise, and every promise they wait
    for has been made. *)
Definition tidy `{Browser} (w : World) : Prop :=
  Forall of_handler (waiting w)
  /\ NoDup (map task_id (waiting w))
  /\ Forall (fun i => (i < next_promise (page w))%nat) (map task_id (waiting w)).

(** [n] is an element whose class list holds [cls]. *)
Definition has_class (cls : JSString) (n : Node) : bool :=
  match n with
  | Text _ => false
  | Elem e => existsb (jsstring_eqb cls) (classList e)
  end.

(** The text that a logged request carries in its body. *)
Definition request_text (ir : nat * Request) : option JSString :=
  match body (snd ir) with
  | Some b => message_of_body b
  | None => None
  end.

(** No surrogate code unit stands alone: a leading one is followed by a
    trailing one, and a trailing one follows a leading one. *)
Fixpoint well_paired (s : JSString) : bool :=
  match s with
  | [] => true
  | c :: s1 =>
      if is_leading_surrogate c then
        match s1 with
        | d :: s2 => is_trailing_surrogate d && well_paired s2
        | [] => false
        end
      else negb (is_trailing_surrogate c) && well_paired s1
  end.

(** *** Worlds to run examples in *)

(** The user has typed [ Hi ], with a space on each side. *)
Definition hi_typed : World :=
  mkWorld (mkPage (js " Hi ") [] 0 false [] [] 0) [] [].

(** The user has typed three spaces. *)
Definition spaces_typed : World :=
  mkWorld (mkPage (js "   ") [] 0 false [] [] 0) [] [].

(** [Hi] has been submitted and the reply is awaited. *)
Definition hi_sent : World :=
  mkWorld (mkPage [] [message_node (js "user") (js "Hi")] 0 true
             [(0%nat, chat_request (js "Hi"))] [] 1)
          [Susp (ResponsePromise 0) after_fetch] [].

(** The reply to [Hi] has come with status 200 and its body is awaited. *)
Definition hi_answered : World :=
  mkWorld (mkPage [] [message_node (js "user") (js "Hi")] 0 true
             [(0%nat, chat_request (js "Hi"))] [(1%nat, mkResponse 200)] 2)
          [Susp (BodyPromise 1) after_json] [].

(** Thirty replies are on the page and the user has typed [Hi]. *)
Definition crowded : World :=
  mkWorld (mkPage (js "Hi") (repeat (message_node (js "bot") (js "ok")) 30)
             0 false [] [] 0) [] [].

(** [Hi] is awaiting its reply and the user is typing the next message. *)
Definition typing_while_waiting : World :=
  mkWorld (mkPage (js "and ") [message_node (js "user") (js "Hi")] 0 true
             [(0%nat, chat_request (js "Hi"))] [] 1)
          [Susp (ResponsePromise 0) after_fetch] [].

(** Two messages are asked in a row, and the second is refused with
    status 503 while the first is still awaited. *)
Definition asks_and_failure : list Event :=
  [UserTypes (js " Hi "); UserSubmits; UserTypes (js "Yo"); UserSubmits;
   Settles (ResponsePromise 1) (inr (mkResponse 503))].

Definition one_failed_one_waiting : World :=
  mkWorld (mkPage []
             [message_node (js "user") (js "Hi"); message_node (js "user") (js "Yo");
              message_node (js "bot") (js "Error: Network response was not ok")]
             0 true
             [(0%nat, chat_request (js "Hi")); (1%nat, chat_request (js "Yo"))] [] 2)
          [Susp (ResponsePromise 0) after_fetch] [].

(** [Hi] is asked and answered with status 200 and the body [null]. *)
Definition null_body_exchange : list Event :=
  [UserTypes (js "Hi"); UserSubmits;
   Settles (ResponsePromise 0) (inr (mkResponse 200));
   Settles (BodyPromise 1) (inr VNull)].

Definition null_body_reported : World :=
  mkWorld (mkPage []
             [message_node (js "user") (js "Hi"); error_node null_read_message]
             0 true [(0%nat, chat_request (js "Hi"))] [(1%nat, mkResponse 200)] 2)
          [] [].

(** [Hi] and [Yo] have both been submitted and both replies are awaited. *)
Definition two_waiting : World :=
  mkWorld (mkPage []
             [message_node (js "user") (js "Hi"); message_node (js "user") (js "Yo")]
             0 true
             [(0%nat, chat_request (js "Hi")); (1%nat, chat_request (js "Yo"))] [] 2)
          [Susp (ResponsePromise 1) after_fetch; Susp (ResponsePromise 0) after_fetch] [].

(** * Properties *)

(** ** Strings *)

Lemma jsstring_eqb_refl (s : JSString) : jsstring_eqb s s = true.
Proof.
  induction s as [|c s IH]; simpl; [reflexivity|].
  now rewrite N.eqb_refl, IH.
Qed.

Lemma jsstring_eqb_eq (s t : JSString) : jsstring_eqb s t = true <-> s = t.
Proof.
  split; [|intros ->; apply jsstring_eqb_refl].
  revert t; induction s as [|c s IH]; intros [|d t]; simpl; try discriminate; auto.
  intros H. apply andb_prop in H as [Hc Hs].
  apply N.eqb_eq in Hc. f_equal; auto.
Qed.

Lemma forallb_reverse {A : Type} (f : A -> bool) (l : list A) :
  forallb f (rev l) = forallb f l.
Proof.
  induction l as [|a l IH]; simpl; [reflexivity|].
  rewrite forallb_app, IH; simpl. rewrite andb_true_r. apply andb_comm.
Qed.

Lemma trimStart_all_white (s : JSString) :
  trimStart s = [] <-> forallb is_white_space s = true.
Proof.
  induction s as [|c s IH]; simpl; [tauto|].
  destruct (is_white_space c); simpl; [exact IH|].
  split; discriminate.
Qed.

Lemma trimStart_white (s : JSString) :
  forallb is_white_space s = true -> trimStart s = [].
Proof. apply trimStart_all_white. Qed.

Lemma trimStart_suffix (s : JSString) :
  exists w, s = w ++ trimStart s /\ forallb is_white_space w = true.
Proof.
  induction s as [|c s (w & Hs & Hw)]; simpl.
  - exists []; auto.
  - destruct (is_white_space c) eqn:Hc.
    + exists (c :: w); simpl. rewrite Hc, Hw. split; [congruence|reflexivity].
    + exists []; auto.
Qed.

(** The trimmed value is empty exactly for the empty and the
    whitespace-only inputs. *)
Lemma trim_empty_iff (s : JSString) :
  trim s = [] <-> forallb is_white_space s = true.
Proof.
  unfold trim, trimEnd. split.
  - intros H.
    assert (Hr : trimStart (rev (trimStart s)) = []).
    { apply (f_equal (@rev N)) in H. rewrite rev_involutive in H. exact H. }
    apply trimStart_all_white in Hr. rewrite forallb_reverse in Hr.
    destruct (trimStart_suffix s) as (w & Hs & Hw).
    rewrite Hs, forallb_app, Hw, Hr. reflexivity.
  - intros H. rewrite (trimStart_white s H). reflexivity.
Qed.

Lemma truthy_nonempty (s : JSString) : s <> [] -> truthy s = true.
Proof. destruct s; [congruence|reflexivity]. Qed.

(** ** JSON strings *)

Lemma unhex_hex_digit (n : N) : n < 16 -> unhex (hex_digit n) = Some n.
Proof.
  intros Hn. unfold hex_digit, unhex.
  destruct (N.ltb_spec n 10).
  - replace ((48 <=? 48 + n) && (48 + n <=? 57)) with true.
    + f_equal. lia.
    + symmetry. apply andb_true_intro. split; apply N.leb_le; lia.
  - replace ((48 <=? 87 + n) && (87 + n <=? 57)) with false.
    + replace ((97 <=? 87 + n) && (87 + n <=? 102)) with true.
      * f_equal. lia.
      * symmetry. apply andb_true_intro. split; apply N.leb_le; lia.
    + symmetry. apply andb_false_intro2. apply N.leb_gt. lia.
Qed.

Lemma hex_digits_value (c : N) :
  c < 65536 ->
  4096 * (c / 4096 mod 16) + 256 * (c / 256 mod 16) + 16 * (c / 16 mod 16) + c mod 16 = c.
Proof.
  intros Hc.
  pose proof (N.div_mod c 16 ltac:(lia)).
  pose proof (N.div_mod (c / 16) 16 ltac:(lia)).
  pose proof (N.div_mod (c / 16 / 16) 16 ltac:(lia)).
  pose proof (N.mod_lt c 16 ltac:(lia)).
  pose proof (N.mod_lt (c / 16) 16 ltac:(lia)).
  pose proof (N.mod_lt (c / 16 / 16) 16 ltac:(lia)).
  assert (H256 : c / 256 = c / 16 / 16) by (rewrite N.Div0.div_div; reflexivity).
  assert (H4096 : c / 4096 = c / 16 / 16 / 16) by (rewrite !N.Div0.div_div; reflexivity).
  assert (Hsmall : c / 16 / 16 / 16 < 16).
  { rewrite !N.Div0.div_div. apply N.Div0.div_lt_upper_bound. exact Hc. }
  rewrite H256, H4096, (N.mod_small (c / 16 / 16 / 16) 16 Hsmall). lia.
Qed.

Lemma unquote_escape (c : N) (tail : JSString) :
  c < 65536 ->
  unquote_units (UnicodeEscape c ++ tail) = and_then c (unquote_units tail).
Proof.
  intros Hc. unfold UnicodeEscape. cbn [app unquote_units].
  change (92 =? 34) with false. change (92 =? 92) with true.
  change (117 =? 117) with true. cbv iota.
  rewrite !unhex_hex_digit by (apply N.mod_lt; lia).
  now rewrite hex_digits_value.
Qed.

Lemma unquote_quote_unit (c : N) (tail : JSString) :
  unquote_units (quote_unit c ++ tail) = and_then c (unquote_units tail).
Proof.
  unfold quote_unit.
  destruct (N.eqb_spec c 0x08) as [->|H08]; [reflexivity|].
  destruct (N.eqb_spec c 0x09) as [->|H09]; [reflexivity|].
  destruct (N.eqb_spec c 0x0A) as [->|H0A]; [reflexivity|].
  destruct (N.eqb_spec c 0x0C) as [->|H0C]; [reflexivity|].
  destruct (N.eqb_spec c 0x0D) as [->|H0D]; [reflexivity|].
  destruct (N.eqb_spec c 0x22) as [->|H22]; [reflexivity|].
  destruct (N.eqb_spec c 0x5C) as [->|H5C]; [reflexivity|].
  destruct ((c <? 0x20) || is_leading_surrogate c || is_trailing_surrogate c) eqn:Hesc.
  - apply unquote_escape.
    unfold is_leading_surrogate, is_trailing_surrogate in Hesc.
    apply orb_prop in Hesc as [Hesc|Hesc]; [apply orb_prop in Hesc as [Hesc|Hesc]|].
    + apply N.ltb_lt in Hesc. lia.
    + apply andb_prop in Hesc as [_ Hesc]. apply N.leb_le in Hesc. lia.
    + apply andb_prop in Hesc as [_ Hesc]. apply N.leb_le in Hesc. lia.
  - apply orb_false_elim in Hesc as [Hesc _].
    apply orb_false_elim in Hesc as [Hlow _].
    cbn [app unquote_units].
    destruct (N.eqb_spec c 34); [contradiction|].
    destruct (N.eqb_spec c 92); [contradiction|].
    now rewrite Hlow.
Qed.

Lemma unquote_surrogate (c : N) (s : JSString) :
  is_leading_surrogate c || is_trailing_surrogate c = true ->
  unquote_units (c :: s) = and_then c (unquote_units s).
Proof.
  intros Hc. unfold is_leading_surrogate, is_trailing_surrogate in Hc.
  assert (Hge : 0xD800 <= c).
  { apply orb_prop in Hc as [Hc|Hc]; apply andb_prop in Hc as [Hc _];
      apply N.leb_le in Hc; lia. }
  cbn [unquote_units].
  destruct (N.eqb_spec c 34); [lia|].
  destruct (N.eqb_spec c 92); [lia|].
  destruct (N.ltb_spec c 0x20); [lia|reflexivity].
Qed.

Lemma quote_units_two (c d : N) (s : JSString) :
  quote_units (c :: d :: s)
  = if is_leading_surrogate c && is_trailing_surrogate d
    then c :: d :: quote_units s
    else quote_unit c ++ quote_units (d :: s).
Proof. reflexivity. Qed.

(** What [JSON.stringify] writes for a string reads back as that string. *)
Lemma unquote_quote_units (s rest : JSString) :
  unquote_units (quote_units s ++ 34 :: rest) = Some (s, rest).
Proof.
  remember (List.length s) as n eqn:Hn.
  revert s Hn. induction n as [n IH] using lt_wf_ind. intros s Hn.
  destruct s as [|c [|d s]].
  - reflexivity.
  - cbn [quote_units]. rewrite unquote_quote_unit. reflexivity.
  - rewrite quote_units_two.
    destruct (is_leading_surrogate c && is_trailing_surrogate d) eqn:Hpair.
    + apply andb_prop in Hpair as [Hc Hd].
      cbn [app]. rewrite unquote_surrogate by (rewrite Hc; reflexivity).
      rewrite unquote_surrogate by (rewrite Hd; apply orb_true_r).
      assert (Hlt : (List.length s < n)%nat) by (subst n; cbn [List.length]; lia).
      now rewrite (IH _ Hlt s eq_refl).
    + rewrite <- app_assoc, unquote_quote_unit.
      assert (Hlt : (List.length (d :: s) < n)%nat) by (subst n; cbn [List.length]; lia).
      now rewrite (IH _ Hlt (d :: s) eq_refl).
Qed.

(** The body of the request tells the text it was made for. *)
Lemma message_of_chat_body (m : JSString) :
  option_map message_of_body (body (chat_request m)) = Some (Some m).
Proof.
  unfold chat_request, body, option_map, message_of_body, QuoteJSONString.
  change (strip_prefix (js "{" ++ [34] ++ js "message" ++ [34] ++ js ":" ++ [34])
            (js "{" ++ ([34] ++ quote_units (js "message") ++ [34]) ++ js ":"
             ++ ([34] ++ quote_units m ++ [34]) ++ js "}"))
    with (Some ((quote_units m ++ [34]) ++ js "}")).
  rewrite <- app_assoc. cbn [app]. rewrite unquote_quote_units. reflexivity.
Qed.

(** ** appendMessage *)

Lemma message_token_cons (sender : JSString) :
  exists c t, sender ++ js "-message" = c :: t.
Proof. destruct sender as [|c s]; do 2 eexists; reflexivity. Qed.

Lemma message_token_spaces (sender : JSString) :
  existsb is_ascii_whitespace (sender ++ js "-message")
  = existsb is_ascii_whitespace sender.
Proof. rewrite existsb_app. simpl. apply orb_false_r. Qed.

Lemma scroll_to_end `{Browser} (cs : list Node) :
  N.min (scrollHeight_of cs) (scrollTopMax cs) = scrollTopMax cs.
Proof. unfold scrollTopMax. lia. Qed.

Lemma textContent_message_node (sender text : JSString) :
  textContent (message_node sender text) = text.
Proof. destruct text; simpl; [reflexivity|]. now rewrite app_nil_r. Qed.

(** With a sender free of spaces and a text that converts, the call
    appends one element and scrolls to it. *)
Lemma appendMessage_ok `{Browser} (sender : JSString) (text : Value)
    (s : JSString) (p : Page) :
  existsb is_ascii_whitespace sender = false ->
  nullable_string text = inr s ->
  appendMessage sender text p = (inr tt, appended (message_node sender s) p).
Proof.
  intros Hsp Htx.
  unfold appendMessage, js_bind, createElement, js_ret, classList_add.
  destruct (message_token_cons sender) as (c & t & Htok).
  pose proof (message_token_spaces sender) as Hs. rewrite Hsp in Hs.
  rewrite Htok in *. rewrite Hs. unfold js_ret.
  unfold textContent_set, js_bind, js_lift. rewrite Htx. unfold js_ret.
  unfold appendChild, scrollHeight, scrollTop_set, appended. simpl.
  rewrite scroll_to_end. unfold message_node. rewrite Htok. reflexivity.
Qed.

(** A sender with a space in it is refused by [classList.add]: nothing
    is appended. *)
Lemma appendMessage_bad_sender `{Browser} (sender : JSString) (text : Value) (p : Page) :
  existsb is_ascii_whitespace sender = true ->
  appendMessage sender text p
  = (inl (DOMException (js "InvalidCharacterError") bad_token_message), p).
Proof.
  intros Hsp.
  unfold appendMessage, js_bind, createElement, js_ret, classList_add.
  destruct (message_token_cons sender) as (c & t & Htok).
  pose proof (message_token_spaces sender) as Hs. rewrite Hsp in Hs.
  rewrite Htok in *. rewrite Hs. reflexivity.
Qed.

(** A text that has no string form throws before anything is appended. *)
Lemma appendMessage_bad_text `{Browser} (sender : JSString) (text : Value)
    (e : Error) (p : Page) :
  existsb is_ascii_whitespace sender = false ->
  nullable_string text = inl e ->
  appendMessage sender text p = (inl e, p).
Proof.
  intros Hsp Htx.
  unfold appendMessage, js_bind, createElement, js_ret, classList_add.
  destruct (message_token_cons sender) as (c & t & Htok).
  pose proof (message_token_spaces sender) as Hs. rewrite Hsp in Hs.
  rewrite Htok in *. rewrite Hs. unfold js_ret.
  unfold textContent_set, js_bind, js_lift. rewrite Htx. reflexivity.
Qed.

(** Whatever the arguments, the call either appends one element and
    scrolls to it, or throws and leaves the page as it was. *)
Lemma appendMessage_cases `{Browser} (sender : JSString) (text : Value) (p : Page) :
  (exists s, nullable_string text = inr s /\
             appendMessage sender text p
             = (inr tt, appended (message_node sender s) p))
  \/ (exists e, appendMessage sender text p = (inl e, p)).
Proof.
  destruct (existsb is_ascii_whitespace sender) eqn:Hsp.
  - right. eexists. apply appendMessage_bad_sender, Hsp.
  - destruct (nullable_string text) as [e|s] eqn:Htx.
    + right. exists e. now apply appendMessage_bad_text.
    + left. exists s. split; [reflexivity|]. now apply appendMessage_ok.
Qed.

(** ** The handler, piece by piece *)

Ltac run_async :=
  cbn [run async_bind try_catch call await settled js_lift js_bind js_ret
       preventDefault input_value_get input_value_set fetch json
       input_value conversation scrollTop defaultPrevented requests body_reads
       next_promise set_defaultPrevented set_input_value set_conversation
       set_scrollTop appended].

Lemma run_handler_empty `{Browser} (p : Page) :
  trim (input_value p) = [] ->
  run handler p = (Finished (inr tt), set_defaultPrevented true p).
Proof.
  intros Hm. unfold handler. run_async. rewrite Hm. reflexivity.
Qed.

Lemma run_handler_message `{Browser} (p : Page) :
  trim (input_value p) <> [] ->
  run handler p
  = (Sleeping (Susp (ResponsePromise (next_promise p)) after_fetch), submitted p).
Proof.
  intros Hm. apply truthy_nonempty in Hm. unfold handler. run_async. rewrite Hm.
  run_async.
  rewrite (appendMessage_ok _ _ (trim (input_value p))) by reflexivity.
  run_async. reflexivity.
Qed.

Lemma run_on_error `{Browser} (e : Error) (p : Page) :
  run (call (appendMessage (js "bot") (VString (js "Error: " ++ error_message e)))) p
  = (Finished (inr tt), appended (error_node (error_message e)) p).
Proof.
  run_async. rewrite (appendMessage_ok _ _ (js "Error: " ++ error_message e)) by reflexivity.
  reflexivity.
Qed.

Lemma run_after_fetch_rejected `{Browser} (e : Error) (p : Page) :
  run (after_fetch (inl e)) p
  = (Finished (inr tt), appended (error_node (error_message e)) p).
Proof. unfold after_fetch. cbn [try_catch async_bind settled]. apply run_on_error. Qed.

Lemma run_after_fetch_not_ok `{Browser} (r : Response) (p : Page) :
  ok r = false ->
  run (after_fetch (inr r)) p
  = (Finished (inr tt), appended (error_node (js "Network response was not ok")) p).
Proof.
  intros Hok. unfold after_fetch. cbn [try_catch async_bind settled]. rewrite Hok.
  cbn [negb try_catch async_bind]. apply (run_on_error (mkError _ _)).
Qed.

Lemma run_after_fetch_ok `{Browser} (r : Response) (p : Page) :
  ok r = true ->
  run (after_fetch (inr r)) p
  = (Sleeping (Susp (BodyPromise (next_promise p)) after_json), reading r p).
Proof.
  intros Hok. unfold after_fetch. cbn [try_catch async_bind settled]. rewrite Hok.
  run_async. reflexivity.
Qed.

Lemma run_after_json_rejected `{Browser} (e : Error) (p : Page) :
  run (after_json (inl e)) p
  = (Finished (inr tt), appended (error_node (error_message e)) p).
Proof. unfold after_json. cbn [try_catch async_bind settled]. apply run_on_error. Qed.

Lemma run_after_json_unreadable `{Browser} (data : Value) (e : Error) (p : Page) :
  get_response data = inl e ->
  run (after_json (inr data)) p
  = (Finished (inr tt), appended (error_node (error_message e)) p).
Proof.
  intros Hg. unfold after_json. run_async. rewrite Hg. run_async.
  apply run_on_error.
Qed.

Lemma run_after_json_shown `{Browser} (data text : Value) (s : JSString) (p : Page) :
  get_response data = inr text ->
  nullable_string text = inr s ->
  run (after_json (inr data)) p
  = (Finished (inr tt), appended (message_node (js "bot") s) p).
Proof.
  intros Hg Hs. unfold after_json. run_async. rewrite Hg. run_async.
  rewrite (appendMessage_ok _ _ s) by (reflexivity || exact Hs). reflexivity.
Qed.

Lemma run_after_json_no_text `{Browser} (data text : Value) (e : Error) (p : Page) :
  get_response data = inr text ->
  nullable_string text = inl e ->
  run (after_json (inr data)) p
  = (Finished (inr tt), appended (error_node (error_message e)) p).
Proof.
  intros Hg Hs. unfold after_json. run_async. rewrite Hg. run_async.
  rewrite (appendMessage_bad_text _ _ e) by (reflexivity || exact Hs).
  run_async. apply run_on_error.
Qed.

(** ** The event loop *)

Lemma awaiting_head {X : Type} (p : Promise X) (k : Completion X -> Async unit)
    (ts : list Suspended) :
  awaiting p (Susp p k :: ts) = Some k.
Proof. destruct p; simpl; now rewrite Nat.eqb_refl. Qed.

Lemma awaiting_other {X Y : Type} (p : Promise X) (q : Promise Y)
    (k : Completion Y -> Async unit) (ts : list Suspended) :
  promise_id p <> promise_id q ->
  awaiting p (Susp q k :: ts) = awaiting p ts.
Proof.
  intros Hne. destruct p, q; simpl in *; try reflexivity;
    destruct (Nat.eqb_spec id id0); congruence.
Qed.

Lemma awaiting_forget_other {X : Type} (p : Promise X) (id : nat) (ts : list Suspended) :
  promise_id p <> id ->
  awaiting p (forget id ts) = awaiting p ts.
Proof.
  intros Hne. induction ts as [|[Y q k] ts IH]; [reflexivity|].
  cbn [forget filter]. fold (forget id ts).
  destruct (Nat.eqb_spec (promise_id q) id) as [Hq|Hq]; cbn [negb].
  - rewrite IH. symmetry. apply awaiting_other. congruence.
  - destruct p, q; simpl in *; rewrite IH; reflexivity.
Qed.

(** Once a promise has settled, nothing waits for it. *)
Lemma awaiting_forget {X : Type} (p : Promise X) (ts : list Suspended) :
  awaiting p (forget (promise_id p) ts) = None.
Proof.
  induction ts as [|[Y q k] ts IH]; [reflexivity|].
  cbn [forget filter]. fold (forget (promise_id p) ts).
  destruct (Nat.eqb_spec (promise_id q) (promise_id p)) as [Hq|Hq]; cbn [negb].
  - exact IH.
  - rewrite awaiting_other by congruence. exact IH.
Qed.

Lemma forget_of_handler `{Browser} (id : nat) (ts : list Suspended) :
  Forall of_handler ts -> Forall of_handler (forget id ts).
Proof.
  intros Hts. unfold forget. apply Forall_forall. intros t Ht.
  apply filter_In in Ht as [Ht _]. revert t Ht. now apply Forall_forall.
Qed.

Lemma step_submit_empty `{Browser} (w : World) :
  trim (input_value (page w)) = [] ->
  step UserSubmits w
  = Some (mkWorld (set_defaultPrevented true (page w)) (waiting w) (unhandled w)).
Proof.
  intros Hm. unfold step, dispatch. cbn [page waiting unhandled].
  rewrite run_handler_empty by exact Hm. reflexivity.
Qed.

Lemma step_submit_message `{Browser} (w : World) :
  trim (input_value (page w)) <> [] ->
  step UserSubmits w
  = Some (mkWorld (submitted (page w))
            (Susp (ResponsePromise (next_promise (page w))) after_fetch :: waiting w)
            (unhandled w)).
Proof.
  intros Hm. unfold step, dispatch. cbn [page waiting unhandled].
  rewrite run_handler_message by exact Hm. reflexivity.
Qed.

Lemma step_settles `{Browser} {X : Type} (p : Promise X) (c : Completion X)
    (k : Completion X -> Async unit) (w : World) :
  awaiting p (waiting w) = Some k ->
  step (Settles p c) w
  = Some (dispatch (k c)
            (mkWorld (page w) (forget (promise_id p) (waiting w)) (unhandled w))).
Proof. intros Hk. unfold step. now rewrite Hk. Qed.

(** A settled promise whose continuation ends by appending [n]. *)
Lemma step_appends `{Browser} {X : Type} (p : Promise X) (c : Completion X)
    (k : Completion X -> Async unit) (n : Node) (w : World) :
  awaiting p (waiting w) = Some k ->
  run (k c) (page w) = (Finished (inr tt), appended n (page w)) ->
  step (Settles p c) w
  = Some (mkWorld (appended n (page w)) (forget (promise_id p) (waiting w))
            (unhandled w)).
Proof.
  intros Hk Hrun. rewrite (step_settles p c k w Hk). unfold dispatch.
  cbn [page waiting unhandled]. now rewrite Hrun.
Qed.

Lemma step_fetch_ok `{Browser} (id : nat) (r : Response) (w : World) :
  awaiting (ResponsePromise id) (waiting w) = Some after_fetch ->
  ok r = true ->
  step (Settles (ResponsePromise id) (inr r)) w
  = Some (mkWorld (reading r (page w))
            (Susp (BodyPromise (next_promise (page w))) after_json
               :: forget id (waiting w))
            (unhandled w)).
Proof.
  intros Hk Hok. rewrite (step_settles _ _ _ w Hk). unfold dispatch.
  cbn [page waiting unhandled promise_id].
  now rewrite run_after_fetch_ok.
Qed.

(** ** The exchange *)

Example hi_typed_then_sent :
  steps [UserTypes (js " Hi "); UserSubmits] fresh = Some hi_sent.
Proof. reflexivity. Qed.

Example hi_sent_then_answered :
  step (Settles (ResponsePromise 0) (inr (mkResponse 200))) hi_sent = Some hi_answered.
Proof. reflexivity. Qed.

(** C1: for every input whose trimmed value is not empty, a submission
    appends exactly one user message whose text is the trimmed input (line
    6), then clears the input field (line 7), then issues exactly one
    request carrying that text (line 9), and all of this happens in the
    submit step, which leaves the handler asleep on the unsettled reply. *)
Theorem submit_appends_clears_sends `{Browser} (w : World) :
  trim (input_value (page w)) <> [] ->
  let message := trim (input_value (page w)) in
  let id := next_promise (page w) in
  exists (p1 p2 : Page) (w' : World),
    appendMessage (js "user") (VString message) (set_defaultPrevented true (page w))
      = (inr tt, p1)
    /\ conversation p1 = conversation (page w) ++ [message_node (js "user") message]
    /\ requests p1 = requests (page w)
    /\ input_value_set [] p1 = (inr tt, p2)
    /\ input_value p2 = []
    /\ requests p2 = requests (page w)
    /\ fetch (js "/chat") (js "POST") [(js "Content-Type", js "application/json")]
         (JSON_stringify (VObject [(js "message", VString message)])) p2
       = (inr (ResponsePromise id), page w')
    /\ step UserSubmits w = Some w'
    /\ conversation (page w') = conversation (page w) ++ [message_node (js "user") message]
    /\ textContent (message_node (js "user") message) = message
    /\ input_value (page w') = []
    /\ requests (page w') = requests (page w) ++ [(id, chat_request message)]
    /\ waiting w' = Susp (ResponsePromise id) after_fetch :: waiting w
    /\ awaiting (ResponsePromise id) (waiting w') = Some after_fetch
    /\ unhandled w' = unhandled w.
Proof.
  intros Hm message id.
  exists (appended (message_node (js "user") message) (set_defaultPrevented true (page w))).
  exists (set_input_value []
            (appended (message_node (js "user") message)
               (set_defaultPrevented true (page w)))).
  eexists. rewrite (step_submit_message w Hm).
  repeat split; try reflexivity.
  - now apply appendMessage_ok.
  - apply textContent_message_node.
  - apply awaiting_head.
Qed.

Lemma submit_appends_clears_sends_witness :
  trim (input_value (page hi_typed)) <> []
  /\ exists w' : World,
       step UserSubmits hi_typed = Some w'
       /\ conversation (page w') = [message_node (js "user") (js "Hi")]
       /\ input_value (page w') = []
       /\ requests (page w') = [(0%nat, chat_request (js "Hi"))].
Proof.
  assert (Hm : trim (input_value (page hi_typed)) <> []) by (vm_compute; discriminate).
  split; [exact Hm|].
  destruct (submit_appends_clears_sends hi_typed Hm)
    as (p1 & p2 & w' & _ & _ & _ & _ & _ & _ & _ & Hstep & Hconv & _ & Hin & Hreq & _).
  exists w'. repeat split; assumption.
Defined.

(** C5: for every input whose trimmed value is empty, that is for the
    empty and the whitespace-only inputs, a submission appends no message,
    issues no network call and leaves the value of the input field as it
    was; nothing is left asleep either. *)
Theorem empty_submit_is_noop `{Browser} (w : World) :
  trim (input_value (page w)) = [] ->
  forallb is_white_space (input_value (page w)) = true
  /\ exists w' : World,
       step UserSubmits w = Some w'
       /\ conversation (page w') = conversation (page w)
       /\ scrollTop (page w') = scrollTop (page w)
       /\ requests (page w') = requests (page w)
       /\ body_reads (page w') = body_reads (page w)
       /\ next_promise (page w') = next_promise (page w)
       /\ input_value (page w') = input_value (page w)
       /\ waiting w' = waiting w
       /\ unhandled w' = unhandled w.
Proof.
  intros Hm. split; [now apply trim_empty_iff|].
  eexists. rewrite (step_submit_empty w Hm). repeat split.
Qed.

Lemma empty_submit_is_noop_witness :
  trim (input_value (page spaces_typed)) = []
  /\ exists w' : World,
       step UserSubmits spaces_typed = Some w'
       /\ conversation (page w') = []
       /\ requests (page w') = []
       /\ input_value (page w') = js "   ".
Proof.
  assert (Hm : trim (input_value (page spaces_typed)) = []) by reflexivity.
  split; [exact Hm|].
  destruct (empty_submit_is_noop spaces_typed Hm)
    as (_ & w' & Hstep & Hconv & _ & Hreq & _ & _ & Hin & _).
  exists w'. repeat split; assumption.
Defined.

(** C2: for every exchange whose reply has a success status and the JSON
    body [{"response": r}], the handler appends nothing when the reply
    arrives, and when the body is read it appends exactly one bot message
    whose text is [r], and no error entry; the exchange is then over. *)
Theorem reply_is_rendered `{Browser} (w : World) (id : nat) (r : Response) :
  awaiting (ResponsePromise id) (waiting w) = Some after_fetch ->
  ok r = true ->
  let jid := next_promise (page w) in
  exists w1 : World,
    step (Settles (ResponsePromise id) (inr r)) w = Some w1
    /\ conversation (page w1) = conversation (page w)
    /\ body_reads (page w1) = body_reads (page w) ++ [(jid, r)]
    /\ awaiting (BodyPromise jid) (waiting w1) = Some after_json
    /\ unhandled w1 = unhandled w
    /\ forall (w2 : World) (props : list (JSString * Value)) (reply : JSString),
         awaiting (BodyPromise jid) (waiting w2) = Some after_json ->
         own (js "response") props = Some (VString reply) ->
         exists w3 : World,
           step (Settles (BodyPromise jid) (inr (VObject props))) w2 = Some w3
           /\ conversation (page w3)
              = conversation (page w2) ++ [message_node (js "bot") reply]
           /\ textContent (message_node (js "bot") reply) = reply
           /\ requests (page w3) = requests (page w2)
           /\ waiting w3 = forget jid (waiting w2)
           /\ awaiting (BodyPromise jid) (waiting w3) = None
           /\ unhandled w3 = unhandled w2.
Proof.
  intros Hk Hok jid. eexists. rewrite (step_fetch_ok id r w Hk Hok).
  repeat split; try reflexivity.
  - apply awaiting_head.
  - intros w2 props reply Hk2 Hown. eexists.
    rewrite (step_appends (BodyPromise jid) _ after_json
               (message_node (js "bot") reply) w2 Hk2).
    + repeat split; try reflexivity.
      * apply textContent_message_node.
      * apply (awaiting_forget (BodyPromise jid)).
    + apply (run_after_json_shown _ (VString reply)); [|reflexivity].
      unfold get_response. now rewrite Hown.
Qed.

Lemma reply_is_rendered_witness :
  exists w1 w3 : World,
    step (Settles (ResponsePromise 0) (inr (mkResponse 200))) hi_sent = Some w1
    /\ step (Settles (BodyPromise 1)
               (inr (VObject [(js "response", VString (js "hello"))]))) hi_answered
       = Some w3
    /\ conversation (page w3)
       = [message_node (js "user") (js "Hi"); message_node (js "bot") (js "hello")].
Proof.
  destruct (reply_is_rendered hi_sent 0 (mkResponse 200) eq_refl eq_refl)
    as (w1 & Hstep1 & _ & _ & _ & _ & Hbody).
  destruct (Hbody hi_answered [(js "response", VString (js "hello"))] (js "hello")
              eq_refl eq_refl) as (w3 & Hstep3 & Hconv & _).
  exists w1, w3. repeat split; assumption.
Defined.

Lemma not_ok_status (r : Response) :
  (status r <? 200) || (299 <? status r) = negb (ok r).
Proof.
  unfold ok. destruct (N.ltb_spec (status r) 200), (N.ltb_spec 299 (status r)),
    (N.leb_spec 200 (status r)), (N.leb_spec (status r) 299); simpl; try reflexivity; lia.
Qed.

(** C3: for every exchange in which the network call fails or the status
    of the response is outside the success range, the failure is caught:
    exactly one bot message is appended, whose text is ["Error: "]
    followed by the description of the failure, nothing is left
    unhandled, and the exchange ends there, with no new request, no body
    read and no other sleeping call disturbed. *)
Theorem failure_is_reported `{Browser} (w : World) (id : nat)
    (c : Completion Response) (description : JSString) :
  awaiting (ResponsePromise id) (waiting w) = Some after_fetch ->
  failure_description c = Some description ->
  exists w' : World,
    step (Settles (ResponsePromise id) c) w = Some w'
    /\ conversation (page w')
       = conversation (page w) ++ [message_node (js "bot") (js "Error: " ++ description)]
    /\ textContent (message_node (js "bot") (js "Error: " ++ description))
       = js "Error: " ++ description
    /\ unhandled w' = unhandled w
    /\ requests (page w') = requests (page w)
    /\ body_reads (page w') = body_reads (page w)
    /\ next_promise (page w') = next_promise (page w)
    /\ waiting w' = forget id (waiting w)
    /\ awaiting (ResponsePromise id) (waiting w') = None.
Proof.
  intros Hk Hd.
  assert (Hrun : run (after_fetch c) (page w)
                 = (Finished (inr tt), appended (error_node description) (page w))).
  { destruct c as [e|r]; simpl in Hd.
    - injection Hd as <-. apply run_after_fetch_rejected.
    - rewrite not_ok_status in Hd. destruct (ok r) eqn:Hok; [discriminate|].
      injection Hd as <-. now apply run_after_fetch_not_ok. }
  eexists. rewrite (step_appends _ c after_fetch _ w Hk Hrun).
  repeat split; try reflexivity.
  - apply textContent_message_node.
  - apply (awaiting_forget (ResponsePromise id)).
Qed.

Lemma failure_is_reported_witness :
  exists w' : World,
    step (Settles (ResponsePromise 0) (inr (mkResponse 500))) hi_sent = Some w'
    /\ conversation (page w')
       = [message_node (js "user") (js "Hi");
          message_node (js "bot") (js "Error: Network response was not ok")]
    /\ unhandled w' = [].
Proof.
  destruct (failure_is_reported hi_sent 0 (inr (mkResponse 500))
              (js "Network response was not ok") eq_refl eq_refl)
    as (w' & Hstep & Hconv & _ & Hun & _).
  exists w'. repeat split; assumption.
Defined.

(** Whatever the body read settles with, the handler appends one entry,
    the one [body_entry] tells. *)
Lemma run_after_json `{Browser} (c : Completion Value) (p : Page) :
  run (after_json c) p = (Finished (inr tt), appended (body_entry c) p).
Proof.
  unfold body_entry. destruct c as [e|data].
  - apply run_after_json_rejected.
  - destruct (get_response data) as [e|text] eqn:Hg.
    + now apply run_after_json_unreadable.
    + destruct (nullable_string text) as [e|s] eqn:Hs.
      * now apply (run_after_json_no_text data text).
      * now apply (run_after_json_shown data text).
Qed.

Lemma renders_appended `{Browser} {X : Type} (p : Promise X) (c : Completion X)
    (k : Completion X -> Async unit) (n : Node) (w : World) :
  awaiting p (waiting w) = Some k ->
  run (k c) (page w) = (Finished (inr tt), appended n (page w)) ->
  renders (Settles p c) w n.
Proof.
  intros Hk Hrun. eexists. rewrite (step_appends p c k n w Hk Hrun).
  repeat split.
Qed.

(** C4 as stated fails: the body [{}] of a reply with status 200 has not
    the shape [{"response": text}], yet it is shown as a bot message with
    no text, not as an error entry. *)
Lemma shapeless_body_is_rendered :
  exists w' : World,
    ok (mkResponse 200) = true
    /\ step (Settles (BodyPromise 1) (inr (VObject []))) hi_answered = Some w'
    /\ conversation (page w')
       = [message_node (js "user") (js "Hi"); message_node (js "bot") []]
    /\ starts_with (js "Error: ") (textContent (message_node (js "bot") [])) = false.
Proof. eexists. repeat split. Qed.

(** C4, amended: a status outside the success range, a body whose read
    fails, a JSON body that is [null] and a [response] with no string
    form are reported as an ["Error: "] entry; any other JSON body is
    shown as a bot message with the string form of [data.response],
    which is empty when the body has no such property. *)
Theorem malformed_reply_outcomes `{Browser} (w : World) :
  (forall (id : nat) (r : Response),
     awaiting (ResponsePromise id) (waiting w) = Some after_fetch ->
     ok r = false ->
     renders (Settles (ResponsePromise id) (inr r)) w
       (error_node (js "Network response was not ok")))
  /\ (forall (jid : nat) (c : Completion Value),
        awaiting (BodyPromise jid) (waiting w) = Some after_json ->
        renders (Settles (BodyPromise jid) c) w (body_entry c))
  /\ (forall e : Error, body_entry (inl e) = error_node (error_message e))
  /\ body_entry (inr VNull) = error_node null_read_message
  /\ (forall (props : list (JSString * Value)) (v : Value) (e : Error),
        own (js "response") props = Some v ->
        nullable_string v = inl e ->
        body_entry (inr (VObject props)) = error_node (error_message e))
  /\ (forall (props : list (JSString * Value)) (v : Value) (s : JSString),
        own (js "response") props = Some v ->
        nullable_string v = inr s ->
        body_entry (inr (VObject props)) = message_node (js "bot") s)
  /\ (forall props : list (JSString * Value),
        own (js "response") props = None ->
        body_entry (inr (VObject props)) = message_node (js "bot") [])
  /\ (forall data : Value,
        match data with
        | VBoolean _ | VNumber _ | VString _ | VArray _ =>
            body_entry (inr data) = message_node (js "bot") []
        | _ => True
        end).
Proof.
  repeat split.
  - intros id r Hk Hok.
    apply (renders_appended _ _ after_fetch); [exact Hk|].
    now apply run_after_fetch_not_ok.
  - intros jid c Hk.
    apply (renders_appended _ _ after_json); [exact Hk|].
    apply run_after_json.
  - intros props v e Hown Hs. unfold body_entry, get_response. now rewrite Hown, Hs.
  - intros props v s Hown Hs. unfold body_entry, get_response. now rewrite Hown, Hs.
  - intros props Hown. unfold body_entry, get_response. now rewrite Hown.
  - intros [| | | | | |]; reflexivity || exact I.
Qed.

Lemma malformed_reply_outcomes_witness :
  renders (Settles (ResponsePromise 0) (inr (mkResponse 404))) hi_sent
    (error_node (js "Network response was not ok"))
  /\ renders (Settles (BodyPromise 1) (inr VNull)) hi_answered
       (error_node null_read_message)
  /\ renders (Settles (BodyPromise 1) (inr (VObject [(js "reply", VString (js "hello"))])))
       hi_answered (message_node (js "bot") []).
Proof.
  destruct (malformed_reply_outcomes hi_sent) as (Hstatus & _).
  destruct (malformed_reply_outcomes hi_answered)
    as (_ & Hbody & _ & Hnull & _ & _ & Hnone & _).
  split; [|split].
  - apply (Hstatus 0%nat (mkResponse 404)); reflexivity.
  - rewrite <- Hnull. apply (Hbody 1%nat); reflexivity.
  - rewrite <- (Hnone [(js "reply", VString (js "hello"))] eq_refl).
    apply (Hbody 1%nat); reflexivity.
Defined.

(** ** appendMessage, as a whole *)

(** C10 as stated fails: for the sender ["a b"], [classList.add] throws
    on the token ["a b-message"] and no element is appended. *)
Lemma spaced_sender_is_refused :
  appendMessage (js "a b") (VString (js "x")) fresh_page
  = (inl (DOMException (js "InvalidCharacterError") bad_token_message), fresh_page)
  /\ conversation fresh_page = [].
Proof. split; reflexivity. Qed.

(** C10, amended: for every sender string [s] with no ASCII whitespace in
    it and every text [t], [appendMessage(s, t)] creates exactly one new
    [div] element whose only class is [s + "-message"] and whose content
    is [t] as text, one text node and no markup, appends it at the end of
    the conversation element, and leaves the entries before it, the
    input field and the traffic as they were. *)
Theorem appendMessage_appends_one `{Browser} (s t : JSString) (p : Page) :
  existsb is_ascii_whitespace s = false ->
  exists (e : Element) (p' : Page),
    appendMessage s (VString t) p = (inr tt, p')
    /\ conversation p' = conversation p ++ [Elem e]
    /\ localName e = js "div"
    /\ classList e = [s ++ js "-message"]
    /\ childNodes e = match t with [] => [] | _ :: _ => [Text t] end
    /\ textContent (Elem e) = t
    /\ input_value p' = input_value p
    /\ defaultPrevented p' = defaultPrevented p
    /\ requests p' = requests p
    /\ body_reads p' = body_reads p
    /\ next_promise p' = next_promise p.
Proof.
  intros Hs. do 2 eexists.
  rewrite (appendMessage_ok s (VString t) t p Hs eq_refl).
  repeat split. apply (textContent_message_node s t).
Qed.

Lemma appendMessage_appends_one_witness :
  exists p' : Page,
    appendMessage (js "bot") (VString (js "<b>hello</b>")) fresh_page = (inr tt, p')
    /\ conversation p'
       = [Elem (mkElement (js "div") [js "bot-message"] [Text (js "<b>hello</b>")])].
Proof.
  destruct (appendMessage_appends_one (js "bot") (js "<b>hello</b>") fresh_page eq_refl)
    as ([name classes children] & p' & Hcall & Hconv & Hname & Hclass & Hchildren & _).
  simpl in Hname, Hclass, Hchildren. subst name classes children.
  exists p'. split; assumption.
Defined.

(** ** Every step of the page *)

Lemma awaiting_response_of_handler `{Browser} (ts : list Suspended) (id : nat)
    (k : Completion Response -> Async unit) :
  Forall of_handler ts ->
  awaiting (ResponsePromise id) ts = Some k ->
  k = after_fetch.
Proof.
  induction 1 as [|[X q k'] ts Ht Hts IH]; [discriminate|].
  destruct q; simpl in *; [|exact IH].
  destruct (Nat.eqb id id0); [|exact IH].
  intros Hk. injection Hk as <-. exact Ht.
Qed.

Lemma awaiting_body_of_handler `{Browser} (ts : list Suspended) (id : nat)
    (k : Completion Value -> Async unit) :
  Forall of_handler ts ->
  awaiting (BodyPromise id) ts = Some k ->
  k = after_json.
Proof.
  induction 1 as [|[X q k'] ts Ht Hts IH]; [discriminate|].
  destruct q; simpl in *; [exact IH|].
  destruct (Nat.eqb id id0); [|exact IH].
  intros Hk. injection Hk as <-. exact Ht.
Qed.

(** What one event can do, when the calls asleep are the handler's: the
    handler's calls stay the only ones asleep, nothing goes unhandled, at
    most one message is appended and then scrolled into view, and a
    request is issued by a submission only. *)
Lemma step_cases `{Browser} (ev : Event) (w w' : World) :
  Forall of_handler (waiting w) ->
  step ev w = Some w' ->
  Forall of_handler (waiting w')
  /\ unhandled w' = unhandled w
  /\ ((conversation (page w') = conversation (page w)
       /\ scrollTop (page w') = scrollTop (page w))
      \/ (exists sender text : JSString,
            conversation (page w')
            = conversation (page w) ++ [message_node sender text]
            /\ scrollTop (page w') = scrollTopMax (conversation (page w'))))
  /\ (requests (page w') = requests (page w)
      \/ (ev = UserSubmits
          /\ trim (input_value (page w)) <> []
          /\ requests (page w')
             = requests (page w)
               ++ [(next_promise (page w), chat_request (trim (input_value (page w))))])).
Proof.
  intros Hw Hstep. destruct ev as [s| |X p c].
  - injection Hstep as <-. cbn. repeat split; auto.
  - destruct (list_eq_dec N.eq_dec (trim (input_value (page w))) []) as [Hm|Hm].
    + rewrite (step_submit_empty w Hm) in Hstep. injection Hstep as <-. cbn. repeat split; auto.
    + rewrite (step_submit_message w Hm) in Hstep. injection Hstep as <-.
      cbn [waiting unhandled page]. repeat split.
      * constructor; [reflexivity|exact Hw].
      * right. do 2 eexists. split; reflexivity.
      * right. repeat split. exact Hm.
  - unfold step in Hstep. destruct (awaiting p (waiting w)) as [k|] eqn:Hk; [|discriminate].
    injection Hstep as <-. destruct p as [id|id].
    + apply awaiting_response_of_handler in Hk as ->; [|exact Hw].
      unfold dispatch. cbn [page waiting unhandled promise_id].
      assert (Hf := forget_of_handler id (waiting w) Hw).
      destruct c as [e|r]; [|destruct (ok r) eqn:Hok].
      * rewrite run_after_fetch_rejected. cbn. repeat split; auto.
        right. do 2 eexists. split; reflexivity.
      * rewrite run_after_fetch_ok by exact Hok. cbn. repeat split; auto.
        constructor; [reflexivity|exact Hf].
      * rewrite run_after_fetch_not_ok by exact Hok. cbn. repeat split; auto.
        right. do 2 eexists. split; reflexivity.
    + apply awaiting_body_of_handler in Hk as ->; [|exact Hw].
      unfold dispatch. cbn [page waiting unhandled promise_id].
      assert (Hf := forget_of_handler id (waiting w) Hw).
      rewrite run_after_json. cbn. repeat split; auto.
      right. unfold body_entry, error_node.
      destruct c as [e|data]; [|destruct (get_response data) as [e|text];
                                 [|destruct (nullable_string text) as [e|s]]];
        do 2 eexists; split; reflexivity.
Qed.

Lemma steps_app `{Browser} (evs1 evs2 : list Event) (w : World) :
  steps (evs1 ++ evs2) w
  = match steps evs1 w with
    | Some w1 => steps evs2 w1
    | None => None
    end.
Proof.
  revert w. induction evs1 as [|ev evs1 IH]; intros w; [reflexivity|].
  cbn [app steps]. destruct (step ev w); [apply IH|reflexivity].
Qed.

Lemma steps_cases `{Browser} (evs : list Event) (w w' : World) :
  Forall of_handler (waiting w) ->
  steps evs w = Some w' ->
  Forall of_handler (waiting w')
  /\ unhandled w' = unhandled w
  /\ (exists added : list Node,
        conversation (page w') = conversation (page w) ++ added
        /\ (List.length added <= List.length evs)%nat
        /\ Forall (fun n => exists sender text, n = message_node sender text) added)
  /\ (exists sent : list (nat * Request),
        requests (page w') = requests (page w) ++ sent
        /\ Forall (fun ir => exists s, trim s <> [] /\ snd ir = chat_request (trim s)) sent).
Proof.
  revert w. induction evs as [|ev evs IH]; intros w Hw Hsteps.
  - injection Hsteps as <-. repeat split; auto.
    + exists []. rewrite app_nil_r. auto.
    + exists []. rewrite app_nil_r. auto.
  - cbn [steps] in Hsteps. destruct (step ev w) as [w1|] eqn:Hstep; [|discriminate].
    destruct (step_cases ev w w1 Hw Hstep) as (Hw1 & Hu1 & Hc1 & Hr1).
    destruct (IH w1 Hw1 Hsteps) as (Hw' & Hu' & (added & Hc' & Hlen & Hadded)
                                    & (sent & Hr' & Hsent)).
    repeat split; [exact Hw'|congruence| |].
    + destruct Hc1 as [[Hc1 _]|(sender & text & Hc1 & _)].
      * exists added. rewrite Hc', Hc1. cbn [List.length]. auto.
      * exists (message_node sender text :: added).
        rewrite Hc', Hc1, <- app_assoc. cbn [List.length app].
        repeat split; [lia|]. constructor; eauto.
    + destruct Hr1 as [Hr1|(_ & Hm & Hr1)].
      * exists sent. rewrite Hr', Hr1. auto.
      * eexists (_ :: sent). rewrite Hr', Hr1, <- app_assoc. cbn [app].
        split; [reflexivity|]. constructor; [|exact Hsent].
        cbn [snd]. eauto.
Qed.

(** C6: every request that the page issues is issued by a submission,
    and it is a POST to [/chat] with the one header
    [Content-Type: application/json] and, as its body, the JSON text of
    the object [{message: m}], where [m] is the trimmed value that the
    input field holds when that submission is made; [m] is not empty and
    the body reads back as [m].  Each request sent in a run of events is
    tied to its submission: the events before it lead to a world [w0],
    the request's promise is the next one of [w0], and [m] is the trimmed
    input of [w0]. *)
Theorem every_request_is_a_chat_post `{Browser} (evs : list Event) (w w' : World) :
  Forall of_handler (waiting w) ->
  steps evs w = Some w' ->
  exists sent : list (nat * Request),
    requests (page w') = requests (page w) ++ sent
    /\ Forall (fun ir =>
                 exists (before after : list Event) (w0 : World),
                   evs = before ++ UserSubmits :: after
                   /\ steps before w = Some w0
                   /\ fst ir = next_promise (page w0)
                   /\ trim (input_value (page w0)) <> []
                   /\ snd ir = chat_request (trim (input_value (page w0)))
                   /\ is_chat_post (trim (input_value (page w0))) (snd ir)) sent.
Proof.
  revert w. induction evs as [|ev evs IH]; intros w Hw Hsteps.
  - injection Hsteps as <-. exists []. rewrite app_nil_r. auto.
  - cbn [steps] in Hsteps. destruct (step ev w) as [w1|] eqn:Hstep; [|discriminate].
    destruct (step_cases ev w w1 Hw Hstep) as (Hw1 & _ & _ & Hr1).
    destruct (IH w1 Hw1 Hsteps) as (sent & Hr & Hsent).
    assert (Hlater :
              Forall (fun ir =>
                        exists (before after : list Event) (w0 : World),
                          ev :: evs = before ++ UserSubmits :: after
                          /\ steps before w = Some w0
                          /\ fst ir = next_promise (page w0)
                          /\ trim (input_value (page w0)) <> []
                          /\ snd ir = chat_request (trim (input_value (page w0)))
                          /\ is_chat_post (trim (input_value (page w0))) (snd ir)) sent).
    { eapply Forall_impl; [|exact Hsent].
      intros ir (before & after & w0 & Hevs & Hbefore & Hrest).
      exists (ev :: before), after, w0. split; [now rewrite Hevs|].
      split; [|exact Hrest]. cbn [steps]. now rewrite Hstep. }
    destruct Hr1 as [Hr1|(Hev & Hm & Hr1)].
    + exists sent. split; [now rewrite Hr, Hr1|exact Hlater].
    + exists ((next_promise (page w), chat_request (trim (input_value (page w)))) :: sent).
      split; [now rewrite Hr, Hr1, <- app_assoc|].
      constructor; [|exact Hlater].
      exists [], evs, w. cbn [app steps fst snd]. subst ev.
      repeat split; try assumption. apply message_of_chat_body.
Qed.

Lemma every_request_is_a_chat_post_witness :
  Forall of_handler (waiting fresh)
  /\ steps [UserTypes (js " Hi "); UserSubmits] fresh = Some hi_sent
  /\ exists sent : list (nat * Request),
       requests (page hi_sent) = requests (page fresh) ++ sent
       /\ Forall (fun ir =>
                    exists (before after : list Event) (w0 : World),
                      [UserTypes (js " Hi "); UserSubmits] = before ++ UserSubmits :: after
                      /\ steps before fresh = Some w0
                      /\ fst ir = next_promise (page w0)
                      /\ trim (input_value (page w0)) <> []
                      /\ snd ir = chat_request (trim (input_value (page w0)))
                      /\ is_chat_post (trim (input_value (page w0))) (snd ir)) sent.
Proof.
  split; [constructor|]. split; [reflexivity|].
  apply (every_request_is_a_chat_post (H := chromium)
           [UserTypes (js " Hi "); UserSubmits] fresh hi_sent);
    [constructor|reflexivity].
Defined.

(** C7: after every append of a message to the transcript, by whichever
    event, the scroll offset of the conversation is the furthest it can
    be scrolled, which shows the last message. *)
Theorem append_scrolls_to_end `{Browser} (ev : Event) (w w' : World) :
  Forall of_handler (waiting w) ->
  step ev w = Some w' ->
  conversation (page w') <> conversation (page w) ->
  scrollTop (page w') = scrollTopMax (conversation (page w'))
  /\ scrollTop (page w') + clientHeight = scrollHeight_of (conversation (page w')).
Proof.
  intros Hw Hstep Hne.
  destruct (step_cases ev w w' Hw Hstep) as (_ & _ & [[Hc _]|(s & t & _ & Hs)] & _);
    [contradiction|].
  split; [exact Hs|]. rewrite Hs. unfold scrollTopMax, scrollHeight_of. lia.
Qed.

Lemma append_scrolls_to_end_witness :
  exists w' : World,
    step UserSubmits crowded = Some w'
    /\ scrollTop (page w') = 220.
Proof.
  exists (mkWorld (submitted (page crowded))
            [Susp (ResponsePromise 0) after_fetch] []).
  split; [reflexivity|].
  apply (append_scrolls_to_end (H := chromium) UserSubmits crowded);
    [constructor|reflexivity|vm_compute; discriminate].
Defined.

(** C8: the transcript is append-only.  Whatever events reach the page,
    the entries it had stay where they were, unchanged; what is new comes
    after them, in the order of the events, each of them a message
    rendered by one call of [appendMessage], and no event adds more than
    one. *)
Theorem transcript_is_append_only `{Browser} (evs : list Event) (w w' : World) :
  Forall of_handler (waiting w) ->
  steps evs w = Some w' ->
  exists added : list Node,
    conversation (page w') = conversation (page w) ++ added
    /\ (List.length added <= List.length evs)%nat
    /\ Forall (fun n => exists sender text, n = message_node sender text) added
    /\ forall (i : nat) (n : Node),
         nth_error (conversation (page w)) i = Some n ->
         nth_error (conversation (page w')) i = Some n.
Proof.
  intros Hw Hsteps.
  destruct (steps_cases evs w w' Hw Hsteps) as (_ & _ & (added & Hc & Hlen & Hadd) & _).
  exists added. repeat split; try assumption.
  intros i n Hn. rewrite Hc, nth_error_app1; [exact Hn|].
  apply nth_error_Some. congruence.
Qed.

Lemma transcript_is_append_only_witness :
  exists w' : World,
    steps [Settles (BodyPromise 1)
             (inr (VObject [(js "response", VString (js "hello"))]))] hi_answered
    = Some w'
    /\ exists added : list Node,
         conversation (page w') = [message_node (js "user") (js "Hi")] ++ added
         /\ (List.length added <= 1)%nat.
Proof.
  assert (Hw : Forall of_handler (waiting hi_answered))
    by (constructor; [reflexivity|constructor]).
  eexists. split; [reflexivity|].
  destruct (transcript_is_append_only (H := chromium)
              [Settles (BodyPromise 1)
                 (inr (VObject [(js "response", VString (js "hello"))]))]
              hi_answered _ Hw eq_refl)
    as (added & Hc & Hlen & _).
  exists added. split; assumption.
Defined.

(** ** Overlapping exchanges *)

Lemma step_types `{Browser} (s : JSString) (w : World) :
  step (UserTypes s) w
  = Some (mkWorld (set_input_value s (page w)) (waiting w) (unhandled w)).
Proof. reflexivity. Qed.

Lemma step_body `{Browser} (jid : nat) (c : Completion Value) (w : World) :
  awaiting (BodyPromise jid) (waiting w) = Some after_json ->
  step (Settles (BodyPromise jid) c) w
  = Some (mkWorld (appended (body_entry c) (page w)) (forget jid (waiting w))
            (unhandled w)).
Proof.
  intros Hk. apply (step_appends (BodyPromise jid) c after_json); [exact Hk|].
  apply run_after_json.
Qed.

Lemma body_entry_reply `{Browser} (t : JSString) :
  body_entry (inr (VObject [(js "response", VString t)])) = message_node (js "bot") t.
Proof. reflexivity. Qed.

Ltac find_awaiting :=
  cbn [waiting page next_promise submitted reading appended set_input_value
       set_conversation set_scrollTop];
  repeat first
    [ apply awaiting_head
    | rewrite awaiting_other by (cbn [promise_id]; lia)
    | rewrite awaiting_forget_other by (cbn [promise_id]; lia) ].

(** C9: a second submission made before the first reply arrives is
    accepted and starts a second exchange of its own, with its own
    request and its own promise; both exchanges are then asleep side by
    side, either may be completed first, and the two replies are
    rendered in the order in which they complete. *)
Theorem overlapping_exchanges `{Browser} (w : World) (s1 s2 t1 t2 : JSString)
    (r1 r2 : Response) :
  trim s1 <> [] -> trim s2 <> [] -> ok r1 = true -> ok r2 = true ->
  let i := next_promise (page w) in
  let asks := [UserTypes s1; UserSubmits; UserTypes s2; UserSubmits] in
  let arrive := [Settles (ResponsePromise i) (inr r1);
                 Settles (ResponsePromise (S i)) (inr r2)] in
  let body1 := Settles (BodyPromise (S (S i)))
                 (inr (VObject [(js "response", VString t1)])) in
  let body2 := Settles (BodyPromise (S (S (S i))))
                 (inr (VObject [(js "response", VString t2)])) in
  let asked := [message_node (js "user") (trim s1); message_node (js "user") (trim s2)] in
  exists w2 w4 wa wb : World,
    steps asks w = Some w2
    /\ requests (page w2)
       = requests (page w) ++ [(i, chat_request (trim s1)); (S i, chat_request (trim s2))]
    /\ awaiting (ResponsePromise i) (waiting w2) = Some after_fetch
    /\ awaiting (ResponsePromise (S i)) (waiting w2) = Some after_fetch
    /\ steps arrive w2 = Some w4
    /\ awaiting (BodyPromise (S (S i))) (waiting w4) = Some after_json
    /\ awaiting (BodyPromise (S (S (S i)))) (waiting w4) = Some after_json
    /\ steps [body1; body2] w4 = Some wa
    /\ conversation (page wa)
       = conversation (page w) ++ asked
         ++ [message_node (js "bot") t1; message_node (js "bot") t2]
    /\ steps [body2; body1] w4 = Some wb
    /\ conversation (page wb)
       = conversation (page w) ++ asked
         ++ [message_node (js "bot") t2; message_node (js "bot") t1].
Proof.
  intros Hs1 Hs2 Hr1 Hr2 i asks arrive body1 body2 asked.
  subst asks arrive body1 body2 asked.
  do 4 eexists.
  split.
  { cbn [steps]. rewrite step_types, step_submit_message by exact Hs1.
    rewrite step_types, step_submit_message by exact Hs2. reflexivity. }
  split. { cbn. now rewrite <- app_assoc. }
  split. { find_awaiting. }
  split. { find_awaiting. }
  split.
  { cbn [steps]. rewrite (step_fetch_ok i r1) by (find_awaiting || exact Hr1).
    rewrite (step_fetch_ok (S i) r2) by (find_awaiting || exact Hr2).
    reflexivity. }
  split. { find_awaiting. }
  split. { find_awaiting. }
  split.
  { cbn [steps]. rewrite step_body by find_awaiting.
    rewrite step_body by find_awaiting. reflexivity. }
  split. { cbn. now rewrite <- !app_assoc. }
  split.
  { cbn [steps]. rewrite step_body by find_awaiting.
    rewrite step_body by find_awaiting. reflexivity. }
  cbn. now rewrite <- !app_assoc.
Qed.

Lemma overlapping_exchanges_witness :
  exists w4 wa wb : World,
    steps [UserTypes (js "Hi"); UserSubmits; UserTypes (js "Yo"); UserSubmits;
           Settles (ResponsePromise 0) (inr (mkResponse 200));
           Settles (ResponsePromise 1) (inr (mkResponse 200))] fresh = Some w4
    /\ steps [Settles (BodyPromise 2) (inr (VObject [(js "response", VString (js "hello"))]));
              Settles (BodyPromise 3) (inr (VObject [(js "response", VString (js "hey"))]))]
         w4 = Some wa
    /\ conversation (page wa)
       = [message_node (js "user") (js "Hi"); message_node (js "user") (js "Yo");
          message_node (js "bot") (js "hello"); message_node (js "bot") (js "hey")]
    /\ steps [Settles (BodyPromise 3) (inr (VObject [(js "response", VString (js "hey"))]));
              Settles (BodyPromise 2) (inr (VObject [(js "response", VString (js "hello"))]))]
         w4 = Some wb
    /\ conversation (page wb)
       = [message_node (js "user") (js "Hi"); message_node (js "user") (js "Yo");
          message_node (js "bot") (js "hey"); message_node (js "bot") (js "hello")].
Proof.
  assert (Hhi : trim (js "Hi") <> []) by (vm_compute; discriminate).
  assert (Hyo : trim (js "Yo") <> []) by (vm_compute; discriminate).
  destruct (overlapping_exchanges (H := chromium) fresh (js "Hi") (js "Yo")
              (js "hello") (js "hey") (mkResponse 200) (mkResponse 200)
              Hhi Hyo eq_refl eq_refl)
    as (w2 & w4 & wa & wb & Hasks & _ & _ & _ & Harrive & _ & _ & Ha & Hca & Hb & Hcb).
  exists w4, wa, wb.
  split.
  { change (steps ([UserTypes (js "Hi"); UserSubmits; UserTypes (js "Yo"); UserSubmits]
                   ++ [Settles (ResponsePromise 0) (inr (mkResponse 200));
                       Settles (ResponsePromise 1) (inr (mkResponse 200))]) fresh
            = Some w4).
    rewrite steps_app, Hasks. exact Harrive. }
  repeat split; assumption.
Defined.

(** ** The page from its loading on *)

(** From a page just loaded on, whatever it shows, only the handler's
    calls are ever asleep and no error ever goes unhandled. *)
Lemma nothing_goes_unhandled `{Browser} (evs : list Event) (p : Page) (w : World) :
  steps evs (mkWorld p [] []) = Some w ->
  Forall of_handler (waiting w) /\ unhandled w = [].
Proof.
  intros Hsteps.
  destruct (steps_cases evs (mkWorld p [] []) w (Forall_nil _) Hsteps) as (Hw & Hu & _).
  split; assumption.
Qed.

(** The handler cancels the submission of the form before anything else,
    so no submission ever leaves the page. *)
Lemma submit_is_prevented `{Browser} (w w' : World) :
  step UserSubmits w = Some w' -> defaultPrevented (page w') = true.
Proof.
  intros Hstep.
  destruct (list_eq_dec N.eq_dec (trim (input_value (page w))) []) as [Hm|Hm].
  - rewrite (step_submit_empty w Hm) in Hstep. now injection Hstep as <-.
  - rewrite (step_submit_message w Hm) in Hstep. now injection Hstep as <-.
Qed.

(** The scenarios of the specification. *)
Example scenario_hi :
  exists w1 w2 w3 : World,
    steps [UserTypes (js "Hi"); UserSubmits] fresh = Some w1
    /\ conversation (page w1) = [message_node (js "user") (js "Hi")]
    /\ step (Settles (ResponsePromise 0) (inr (mkResponse 200))) w1 = Some w2
    /\ step (Settles (BodyPromise 1)
               (inr (VObject [(js "response", VString (js "hello"))]))) w2 = Some w3
    /\ conversation (page w3)
       = [message_node (js "user") (js "Hi"); message_node (js "bot") (js "hello")].
Proof. exists hi_sent, hi_answered. eexists. repeat split. Qed.

Example scenario_spaces :
  exists w1 : World,
    steps [UserTypes (js "   "); UserSubmits] fresh = Some w1
    /\ conversation (page w1) = []
    /\ requests (page w1) = [].
Proof. eexists. repeat split. Qed.

Example scenario_network_down :
  exists w1 : World,
    step (Settles (ResponsePromise 0) (inl (TypeError (js "Failed to fetch")))) hi_sent
    = Some w1
    /\ conversation (page w1)
       = [message_node (js "user") (js "Hi");
          message_node (js "bot") (js "Error: Failed to fetch")].
Proof. eexists. repeat split. Qed.

(** * Further properties of the script *)

(** ** One event, exactly *)

(** What one event does to a world whose sleeping calls are the
    handler's, case by case. *)
Lemma step_shapes `{Browser} (ev : Event) (w w' : World) :
  Forall of_handler (waiting w) ->
  step ev w = Some w' ->
  (exists s, ev = UserTypes s
             /\ w' = mkWorld (set_input_value s (page w)) (waiting w) (unhandled w))
  \/ (ev = UserSubmits /\ trim (input_value (page w)) = []
      /\ w' = mkWorld (set_defaultPrevented true (page w)) (waiting w) (unhandled w))
  \/ (ev = UserSubmits /\ trim (input_value (page w)) <> []
      /\ w' = mkWorld (submitted (page w))
                (Susp (ResponsePromise (next_promise (page w))) after_fetch :: waiting w)
                (unhandled w))
  \/ (exists id r, ev = Settles (ResponsePromise id) (inr r) /\ ok r = true
                   /\ awaiting (ResponsePromise id) (waiting w) = Some after_fetch
                   /\ w' = mkWorld (reading r (page w))
                             (Susp (BodyPromise (next_promise (page w))) after_json
                                :: forget id (waiting w))
                             (unhandled w))
  \/ (exists (X : Type) (p : Promise X) (c : Completion X)
             (k : Completion X -> Async unit) (t : JSString),
        ev = Settles p c /\ awaiting p (waiting w) = Some k
        /\ w' = mkWorld (appended (message_node (js "bot") t) (page w))
                  (forget (promise_id p) (waiting w)) (unhandled w)).
Proof.
  intros Hw Hstep. destruct ev as [s| |X p c].
  - left. exists s. injection Hstep as <-. auto.
  - destruct (list_eq_dec N.eq_dec (trim (input_value (page w))) []) as [Hm|Hm].
    + right; left. rewrite (step_submit_empty w Hm) in Hstep.
      injection Hstep as <-. auto.
    + right; right; left. rewrite (step_submit_message w Hm) in Hstep.
      injection Hstep as <-. auto.
  - destruct (awaiting p (waiting w)) as [k|] eqn:Hk;
      [|unfold step in Hstep; rewrite Hk in Hstep; discriminate].
    destruct p as [id|id].
    + assert (Hk' := Hk). apply awaiting_response_of_handler in Hk' as ->; [|exact Hw].
      destruct c as [e|r]; [|destruct (ok r) eqn:Hok].
      * right; right; right; right.
        rewrite (step_appends _ _ _ _ w Hk (run_after_fetch_rejected e (page w))) in Hstep.
        injection Hstep as <-. do 5 eexists. repeat split. exact Hk.
      * right; right; right; left.
        rewrite (step_fetch_ok id r w Hk Hok) in Hstep. injection Hstep as <-.
        exists id, r. auto.
      * right; right; right; right.
        rewrite (step_appends _ _ _ _ w Hk (run_after_fetch_not_ok r (page w) Hok)) in Hstep.
        injection Hstep as <-. do 5 eexists. repeat split. exact Hk.
    + assert (Hk' := Hk). apply awaiting_body_of_handler in Hk' as ->; [|exact Hw].
      right; right; right; right.
      rewrite (step_body id c w Hk) in Hstep. injection Hstep as <-.
      exists Value, (BodyPromise id), c, after_json.
      unfold body_entry, error_node.
      destruct c as [e|data]; [|destruct (get_response data) as [e|text];
                                 [|destruct (nullable_string text) as [e|s]]];
        eexists; repeat split; exact Hk.
Qed.

(** X1: every submission, of an empty input as of a message, cancels the
    default action of the form within the submit step itself (line 2 runs
    before any await), so submitting never reloads the page; and the
    submit step itself never fails. *)
Theorem submission_never_leaves_the_page `{Browser} (w : World) :
  exists w' : World,
    step UserSubmits w = Some w'
    /\ defaultPrevented (page w') = true
    /\ unhandled w' = unhandled w.
Proof.
  destruct (list_eq_dec N.eq_dec (trim (input_value (page w))) []) as [Hm|Hm].
  - eexists. rewrite (step_submit_empty w Hm). repeat split.
  - eexists. rewrite (step_submit_message w Hm). repeat split.
Qed.

(** X2: when a promise of the handler settles, with whatever outcome, the
    handler leaves the input field as it is, so what the user has typed
    while waiting is kept, and it issues no further request. *)
Theorem reply_keeps_the_input `{Browser} {X : Type} (p : Promise X)
    (c : Completion X) (w w' : World) :
  Forall of_handler (waiting w) ->
  step (Settles p c) w = Some w' ->
  input_value (page w') = input_value (page w)
  /\ requests (page w') = requests (page w)
  /\ defaultPrevented (page w') = defaultPrevented (page w).
Proof.
  intros Hw Hstep.
  destruct (step_shapes _ w w' Hw Hstep)
    as [(s & Hev & _)|[(Hev & _)|[(Hev & _)|[(id & r & _ & _ & _ & ->)
       |(Y & q & d & k & t & _ & _ & ->)]]]];
    try discriminate; repeat split.
Qed.

Lemma reply_keeps_the_input_witness :
  exists w' : World,
    step (Settles (ResponsePromise 0) (inl (TypeError (js "Failed to fetch"))))
      typing_while_waiting = Some w'
    /\ input_value (page w') = js "and "
    /\ requests (page w') = [(0%nat, chat_request (js "Hi"))].
Proof.
  assert (Hw : Forall of_handler (waiting typing_while_waiting))
    by (constructor; [reflexivity|constructor]).
  eexists. split; [reflexivity|].
  destruct (reply_keeps_the_input (H := chromium) (ResponsePromise 0)
              (inl (TypeError (js "Failed to fetch"))) typing_while_waiting _ Hw eq_refl)
    as (Hin & Hreq & _).
  split; assumption.
Defined.

(** X3: on a page just loaded, whatever it shows and whatever then
    happens to it (any typing, any submissions, any replies, bodies and
    failures in any order), no exception ever leaves the handler: every
    throw inside the try block is caught, and the catch block itself
    cannot throw. *)
Theorem no_exception_escapes `{Browser} (evs : list Event) (p : Page) (w : World) :
  steps evs (mkWorld p [] []) = Some w ->
  unhandled w = [].
Proof.
  intros Hsteps.
  now destruct (steps_cases evs (mkWorld p [] []) w (Forall_nil _) Hsteps) as (_ & Hu & _).
Qed.

Lemma no_exception_escapes_witness :
  steps null_body_exchange (mkWorld fresh_page [] []) = Some null_body_reported
  /\ unhandled null_body_reported = [].
Proof.
  assert (Hsteps : steps null_body_exchange (mkWorld fresh_page [] [])
                   = Some null_body_reported) by (vm_compute; reflexivity).
  split; [exact Hsteps|].
  apply (no_exception_escapes (H := chromium) null_body_exchange fresh_page).
  exact Hsteps.
Defined.

(** X4: [appendMessage] is all or nothing, for every sender and every
    value of [text].  It throws, leaving the page untouched, when the
    sender holds ASCII whitespace (checked first) or when the text has no
    string form; otherwise it appends one element with the string form of
    the text and scrolls to it. *)
Theorem appendMessage_all_or_nothing `{Browser} (sender : JSString) (text : Value)
    (p : Page) :
  appendMessage sender text p
  = if existsb is_ascii_whitespace sender
    then (inl (DOMException (js "InvalidCharacterError") bad_token_message), p)
    else match nullable_string text with
         | inl e => (inl e, p)
         | inr s => (inr tt, appended (message_node sender s) p)
         end.
Proof.
  destruct (existsb is_ascii_whitespace sender) eqn:Hsp.
  - now apply appendMessage_bad_sender.
  - destruct (nullable_string text) as [e|s] eqn:Htx.
    + now apply appendMessage_bad_text.
    + now apply appendMessage_ok.
Qed.

(** ** What is trimmed away *)

Lemma trimStart_head (s : JSString) :
  match trimStart s with
  | [] => True
  | c :: _ => is_white_space c = false
  end.
Proof.
  induction s as [|c s IH]; simpl; [exact I|].
  destruct (is_white_space c) eqn:Hc; [exact IH|exact Hc].
Qed.

Lemma trimEnd_prefix (s : JSString) :
  exists w, s = trimEnd s ++ w /\ forallb is_white_space w = true.
Proof.
  destruct (trimStart_suffix (rev s)) as (w & Hs & Hw).
  exists (rev w). split.
  - unfold trimEnd. rewrite <- rev_app_distr, <- Hs. symmetry. apply rev_involutive.
  - now rewrite forallb_reverse.
Qed.

(** [trim] takes away whitespace at both ends and nothing else. *)
Lemma trim_spec (s : JSString) :
  exists lead trail,
    s = lead ++ trim s ++ trail
    /\ forallb is_white_space lead = true
    /\ forallb is_white_space trail = true
    /\ match trim s with [] => True | c :: _ => is_white_space c = false end
    /\ match rev (trim s) with [] => True | c :: _ => is_white_space c = false end.
Proof.
  destruct (trimStart_suffix s) as (lead & Hs & Hlead).
  destruct (trimEnd_prefix (trimStart s)) as (trail & Ht & Htrail).
  exists lead, trail. unfold trim. repeat split; try assumption.
  - now rewrite <- Ht.
  - pose proof (trimStart_head s) as Hh. rewrite Ht in Hh.
    destruct (trimEnd (trimStart s)); [exact I|exact Hh].
  - unfold trimEnd. rewrite rev_involutive. apply trimStart_head.
Qed.

(** X5: the text that a submission shows and sends is the input without
    its leading and its trailing whitespace, and with everything between
    them kept: the input is that text between two runs of whitespace, and
    the text neither begins nor ends with whitespace. *)
Theorem sent_text_is_the_input_trimmed `{Browser} (w : World) :
  trim (input_value (page w)) <> [] ->
  exists (w' : World) (lead trail : JSString) (text : JSString),
    step UserSubmits w = Some w'
    /\ conversation (page w') = conversation (page w) ++ [message_node (js "user") text]
    /\ requests (page w')
       = requests (page w) ++ [(next_promise (page w), chat_request text)]
    /\ input_value (page w) = lead ++ text ++ trail
    /\ forallb is_white_space lead = true
    /\ forallb is_white_space trail = true
    /\ match text with [] => False | c :: _ => is_white_space c = false end
    /\ match rev text with [] => False | c :: _ => is_white_space c = false end.
Proof.
  intros Hm.
  destruct (trim_spec (input_value (page w))) as (lead & trail & Hs & Hl & Ht & Hfirst & Hlast).
  exists (mkWorld (submitted (page w))
            (Susp (ResponsePromise (next_promise (page w))) after_fetch :: waiting w)
            (unhandled w)), lead, trail, (trim (input_value (page w))).
  repeat split; try assumption.
  - now apply step_submit_message.
  - destruct (trim (input_value (page w))); [congruence|exact Hfirst].
  - destruct (rev (trim (input_value (page w)))) eqn:Hr; [|exact Hlast].
    apply (f_equal (@rev N)) in Hr. rewrite rev_involutive in Hr. contradiction.
Qed.

Lemma sent_text_is_the_input_trimmed_witness :
  trim (input_value (page hi_typed)) <> []
  /\ exists (w' : World) (lead trail text : JSString),
       step UserSubmits hi_typed = Some w'
       /\ requests (page w') = [(0%nat, chat_request text)]
       /\ js " Hi " = lead ++ text ++ trail
       /\ forallb is_white_space lead = true
       /\ forallb is_white_space trail = true.
Proof.
  assert (Hm : trim (input_value (page hi_typed)) <> []) by (vm_compute; discriminate).
  split; [exact Hm|].
  destruct (sent_text_is_the_input_trimmed (H := chromium) hi_typed Hm)
    as (w' & lead & trail & text & Hstep & _ & Hreq & Hin & Hl & Ht & _).
  exists w', lead, trail, text. repeat split; assumption.
Defined.

(** ** The sleeping calls, counted *)

Lemma forget_ids (id : nat) (ts : list Suspended) :
  map task_id (forget id ts)
  = filter (fun i => negb (Nat.eqb i id)) (map task_id ts).
Proof.
  induction ts as [|[X q k] ts IH]; [reflexivity|].
  cbn [forget filter map task_id]. fold (forget id ts).
  destruct (Nat.eqb (promise_id q) id); cbn [negb map task_id]; now rewrite IH.
Qed.

Lemma forget_absent (id : nat) (ts : list Suspended) :
  ~ In id (map task_id ts) -> forget id ts = ts.
Proof.
  induction ts as [|[X q k] ts IH]; [reflexivity|].
  cbn [map task_id In forget filter]. fold (forget id ts). intros Hn.
  destruct (Nat.eqb_spec (promise_id q) id) as [Hq|Hq]; [tauto|].
  cbn [negb]. f_equal. apply IH. tauto.
Qed.

Lemma awaiting_listed {X : Type} (p : Promise X) (ts : list Suspended)
    (k : Completion X -> Async unit) :
  awaiting p ts = Some k -> In (promise_id p) (map task_id ts).
Proof.
  induction ts as [|[Y q k'] ts IH]; [discriminate|].
  cbn [map task_id In]. intros Hk.
  destruct (Nat.eq_dec (promise_id q) (promise_id p)) as [Hq|Hq]; [now left|].
  right. apply IH. rewrite awaiting_other in Hk by congruence. exact Hk.
Qed.

(** A promise that settles wakes exactly one call. *)
Lemma forget_length {X : Type} (p : Promise X) (ts : list Suspended)
    (k : Completion X -> Async unit) :
  NoDup (map task_id ts) ->
  awaiting p ts = Some k ->
  S (List.length (forget (promise_id p) ts)) = List.length ts.
Proof.
  induction ts as [|[Y q k'] ts IH]; [discriminate|].
  cbn [map task_id]. intros Hnd Hk. apply NoDup_cons_iff in Hnd as [Hq Hnd].
  cbn [forget filter]. fold (forget (promise_id p) ts).
  destruct (Nat.eqb_spec (promise_id q) (promise_id p)) as [He|He]; cbn [negb List.length].
  - rewrite forget_absent; [reflexivity|]. now rewrite <- He.
  - f_equal. apply IH; [exact Hnd|].
    rewrite awaiting_other in Hk by congruence. exact Hk.
Qed.

Lemma tidy_loaded `{Browser} (p : Page) : tidy (mkWorld p [] []).
Proof. repeat split; constructor. Qed.

Lemma forget_tidy `{Browser} (id bound : nat) (ts : list Suspended) :
  NoDup (map task_id ts) ->
  Forall (fun i => (i < bound)%nat) (map task_id ts) ->
  NoDup (map task_id (forget id ts))
  /\ Forall (fun i => (i < bound)%nat) (map task_id (forget id ts)).
Proof.
  intros Hnd Hlt. rewrite forget_ids. split.
  - now apply NoDup_filter.
  - apply Forall_forall. intros i Hi. apply filter_In in Hi as [Hi _].
    revert i Hi. now apply Forall_forall.
Qed.

Lemma fresh_id_tidy (next : nat) (ids : list nat) :
  NoDup ids ->
  Forall (fun i => (i < next)%nat) ids ->
  NoDup (next :: ids) /\ Forall (fun i => (i < S next)%nat) (next :: ids).
Proof.
  intros Hnd Hlt. split.
  - constructor; [|exact Hnd]. intros Hin.
    pose proof (proj1 (Forall_forall _ _) Hlt next Hin) as Hx. cbv beta in Hx. lia.
  - constructor; [lia|]. eapply Forall_impl; [|exact Hlt]. cbv beta. intros; lia.
Qed.

(** The page keeps its sleeping calls in order. *)
Lemma tidy_step `{Browser} (ev : Event) (w w' : World) :
  tidy w -> step ev w = Some w' -> tidy w'.
Proof.
  intros (Hw & Hnd & Hlt) Hstep.
  pose proof (step_cases ev w w' Hw Hstep) as (Hw' & _).
  split; [exact Hw'|].
  destruct (step_shapes ev w w' Hw Hstep)
    as [(s & _ & ->)|[(_ & _ & ->)|[(_ & _ & ->)|[(id & r & _ & _ & _ & ->)
       |(Y & q & d & k & t & _ & _ & ->)]]]]; cbn [waiting page next_promise].
  - split; assumption.
  - split; assumption.
  - cbn [map task_id promise_id submitted next_promise]. now apply fresh_id_tidy.
  - cbn [map task_id promise_id reading next_promise].
    destruct (forget_tidy id (next_promise (page w)) (waiting w) Hnd Hlt) as (Hnd' & Hlt').
    now apply fresh_id_tidy.
  - apply (forget_tidy (promise_id q) (next_promise (page w)) (waiting w) Hnd Hlt).
Qed.

Lemma request_text_chat (i : nat) (m : JSString) :
  request_text (i, chat_request m) = Some m.
Proof.
  pose proof (message_of_chat_body m) as Hm. unfold request_text.
  cbn [snd]. destruct (body (chat_request m)); cbn [option_map] in Hm; congruence.
Qed.

Lemma user_node_classes (m : JSString) :
  has_class (js "user-message") (message_node (js "user") m) = true
  /\ has_class (js "bot-message") (message_node (js "user") m) = false.
Proof. split; reflexivity. Qed.

Lemma bot_node_classes (t : JSString) :
  has_class (js "user-message") (message_node (js "bot") t) = false
  /\ has_class (js "bot-message") (message_node (js "bot") t) = true.
Proof. split; reflexivity. Qed.

(** The books of the page after one event: what was appended and what
    was sent. *)
Lemma step_ledger `{Browser} (ev : Event) (w w' : World) :
  tidy w ->
  step ev w = Some w' ->
  exists (added : list Node) (sent : list (nat * Request)),
    conversation (page w') = conversation (page w) ++ added
    /\ requests (page w') = requests (page w) ++ sent
    /\ List.length (filter (has_class (js "user-message")) added) = List.length sent
    /\ (List.length (filter (has_class (js "bot-message")) added)
        + List.length (waiting w')
        = List.length sent + List.length (waiting w))%nat
    /\ map Some (map textContent (filter (has_class (js "user-message")) added))
       = map request_text sent.
Proof.
  intros (Hw & Hnd & _) Hstep.
  destruct (step_shapes ev w w' Hw Hstep)
    as [(s & _ & ->)|[(_ & _ & ->)|[(_ & Hm & ->)|[(id & r & _ & _ & Hk & ->)
       |(Y & q & d & k & t & _ & Hk & ->)]]]]; cbn [waiting page].
  - exists [], []. cbn. rewrite !app_nil_r. repeat split.
  - exists [], []. cbn. rewrite !app_nil_r. repeat split.
  - exists [message_node (js "user") (trim (input_value (page w)))],
      [(next_promise (page w), chat_request (trim (input_value (page w))))].
    cbn [submitted conversation requests filter].
    destruct (user_node_classes (trim (input_value (page w)))) as (-> & ->).
    cbn [List.length map]. rewrite textContent_message_node, request_text_chat.
    repeat split; lia.
  - exists [], []. cbn [reading conversation requests filter List.length map].
    rewrite !app_nil_r. repeat split.
    pose proof (forget_length (ResponsePromise id) (waiting w) _ Hnd Hk) as Hlen.
    cbn [promise_id] in Hlen. lia.
  - exists [message_node (js "bot") t], [].
    cbn [appended set_scrollTop set_conversation conversation requests filter].
    destruct (bot_node_classes t) as (-> & ->).
    cbn [List.length map]. rewrite app_nil_r. repeat split.
    pose proof (forget_length q (waiting w) k Hnd Hk) as Hlen. lia.
Qed.

Lemma steps_ledger `{Browser} (evs : list Event) (w w' : World) :
  tidy w ->
  steps evs w = Some w' ->
  tidy w'
  /\ exists (added : list Node) (sent : list (nat * Request)),
       conversation (page w') = conversation (page w) ++ added
       /\ requests (page w') = requests (page w) ++ sent
       /\ List.length (filter (has_class (js "user-message")) added) = List.length sent
       /\ (List.length (filter (has_class (js "bot-message")) added)
           + List.length (waiting w')
           = List.length sent + List.length (waiting w))%nat
       /\ map Some (map textContent (filter (has_class (js "user-message")) added))
          = map request_text sent.
Proof.
  revert w. induction evs as [|ev evs IH]; intros w Hw Hsteps.
  - injection Hsteps as <-. split; [exact Hw|].
    exists [], []. cbn. rewrite !app_nil_r. repeat split.
  - cbn [steps] in Hsteps. destruct (step ev w) as [w1|] eqn:Hstep; [|discriminate].
    pose proof (tidy_step ev w w1 Hw Hstep) as Hw1.
    destruct (step_ledger ev w w1 Hw Hstep) as (a1 & s1 & Hc1 & Hr1 & Hu1 & Hb1 & Ht1).
    destruct (IH w1 Hw1 Hsteps) as (Hw' & a2 & s2 & Hc2 & Hr2 & Hu2 & Hb2 & Ht2).
    split; [exact Hw'|].
    exists (a1 ++ a2), (s1 ++ s2).
    rewrite Hc2, Hc1, Hr2, Hr1, <- !app_assoc, !filter_app, !map_app, !length_app.
    repeat split; try lia. now rewrite Ht1, Ht2.
Qed.

(** X6: the books of the page balance.  From a page just loaded on,
    whatever happens, the messages appended with class [user-message] are
    as many as the requests sent, and each request is either still
    awaited by one sleeping call or answered by exactly one entry of
    class [bot-message]: no request is answered twice, none is dropped. *)
Theorem every_request_is_answered_once `{Browser} (evs : list Event) (p : Page)
    (w : World) :
  steps evs (mkWorld p [] []) = Some w ->
  exists (added : list Node) (sent : list (nat * Request)),
    conversation (page w) = conversation p ++ added
    /\ requests (page w) = requests p ++ sent
    /\ List.length (filter (has_class (js "user-message")) added) = List.length sent
    /\ (List.length (filter (has_class (js "bot-message")) added)
        + List.length (waiting w) = List.length sent)%nat
    /\ (waiting w = [] ->
        List.length (filter (has_class (js "bot-message")) added) = List.length sent).
Proof.
  intros Hsteps.
  destruct (steps_ledger evs _ w (tidy_loaded p) Hsteps)
    as (_ & added & sent & Hc & Hr & Hu & Hb & _).
  exists added, sent. cbn [page waiting List.length] in *.
  repeat split; try assumption; try lia.
  intros Hnone. rewrite Hnone in Hb. cbn [List.length] in Hb. lia.
Qed.

Lemma every_request_is_answered_once_witness :
  exists (added : list Node) (sent : list (nat * Request)),
    steps asks_and_failure (mkWorld fresh_page [] []) = Some one_failed_one_waiting
    /\ conversation (page one_failed_one_waiting) = added
    /\ requests (page one_failed_one_waiting) = sent
    /\ List.length (filter (has_class (js "user-message")) added) = 2%nat
    /\ (List.length (filter (has_class (js "bot-message")) added)
        + List.length (waiting one_failed_one_waiting) = 2)%nat.
Proof.
  assert (Hsteps : steps asks_and_failure (mkWorld fresh_page [] [])
                   = Some one_failed_one_waiting) by (vm_compute; reflexivity).
  destruct (every_request_is_answered_once (H := chromium) asks_and_failure
              fresh_page one_failed_one_waiting Hsteps)
    as (added & sent & Hc & Hr & Hu & Hb & _).
  exists added, sent. cbn [conversation requests fresh_page app] in Hc, Hr.
  assert (Hlen : List.length sent = 2%nat) by (rewrite <- Hr; reflexivity).
  repeat split; try assumption; congruence.
Defined.

(** X7: what the transcript shows as sent is what was sent.  From a page
    just loaded on, the texts of the appended [user-message] entries, in
    the order of the transcript, are the texts that the bodies of the
    requests carry, in the order in which the requests were issued. *)
Theorem shown_is_what_was_sent `{Browser} (evs : list Event) (p : Page) (w : World) :
  steps evs (mkWorld p [] []) = Some w ->
  exists (added : list Node) (sent : list (nat * Request)),
    conversation (page w) = conversation p ++ added
    /\ requests (page w) = requests p ++ sent
    /\ map Some (map textContent (filter (has_class (js "user-message")) added))
       = map request_text sent.
Proof.
  intros Hsteps.
  destruct (steps_ledger evs _ w (tidy_loaded p) Hsteps)
    as (_ & added & sent & Hc & Hr & _ & _ & Ht).
  exists added, sent. repeat split; assumption.
Qed.

Lemma shown_is_what_was_sent_witness :
  exists (added : list Node) (sent : list (nat * Request)),
    steps asks_and_failure (mkWorld fresh_page [] []) = Some one_failed_one_waiting
    /\ conversation (page one_failed_one_waiting) = added
    /\ requests (page one_failed_one_waiting) = sent
    /\ map request_text sent = [Some (js "Hi"); Some (js "Yo")].
Proof.
  assert (Hsteps : steps asks_and_failure (mkWorld fresh_page [] [])
                   = Some one_failed_one_waiting) by (vm_compute; reflexivity).
  destruct (shown_is_what_was_sent (H := chromium) asks_and_failure
              fresh_page one_failed_one_waiting Hsteps)
    as (added & sent & Hc & Hr & Ht).
  exists added, sent. cbn [conversation requests fresh_page app] in Hc, Hr.
  repeat split; try assumption.
  rewrite <- Ht, <- Hc. reflexivity.
Defined.

(** ** Exchanges side by side *)

(** X8: an event leaves every other sleeping call as it is.  Whatever
    happens to the page (typing, a submission, the settling of another
    promise of the handler with whatever outcome), a call that waits for
    an earlier promise still waits for it and will continue the same way:
    a failure or a reply in one exchange cancels or alters no other. *)
Theorem other_exchanges_are_untouched `{Browser} (ev : Event) (w w' : World)
    {Y : Type} (q : Promise Y) :
  Forall of_handler (waiting w) ->
  step ev w = Some w' ->
  (promise_id q < next_promise (page w))%nat ->
  match ev with
  | Settles p _ => promise_id p <> promise_id q
  | _ => True
  end ->
  awaiting q (waiting w') = awaiting q (waiting w).
Proof.
  intros Hw Hstep Hq Hev.
  destruct (step_shapes ev w w' Hw Hstep)
    as [(s & _ & ->)|[(_ & _ & ->)|[(_ & _ & ->)|[(id & r & -> & _ & _ & ->)
       |(Z & p & d & k & t & -> & _ & ->)]]]]; cbn [waiting].
  - reflexivity.
  - reflexivity.
  - apply awaiting_other. cbn [promise_id]. lia.
  - cbn [promise_id] in Hev.
    rewrite awaiting_other by (cbn [promise_id]; lia).
    apply awaiting_forget_other. congruence.
  - apply awaiting_forget_other. congruence.
Qed.

Lemma other_exchanges_are_untouched_witness :
  exists w' : World,
    step (Settles (ResponsePromise 1) (inl (TypeError (js "Failed to fetch"))))
      two_waiting = Some w'
    /\ awaiting (ResponsePromise 0) (waiting w') = Some after_fetch.
Proof.
  assert (Hw : Forall of_handler (waiting two_waiting))
    by (repeat (constructor; [reflexivity|]); constructor).
  eexists. split; [reflexivity|].
  rewrite (other_exchanges_are_untouched (H := chromium)
             (Settles (ResponsePromise 1) (inl (TypeError (js "Failed to fetch"))))
             two_waiting _ (ResponsePromise 0) Hw eq_refl);
    [reflexivity|cbn; lia|cbn; lia].
Defined.

(** X9: an error entry cannot be told from a reply.  The entry that
    reports a failed body read has the class [bot-message] like any
    reply, and the reply [{"response": "Error: " + description}] is
    rendered as the very same element. *)
Theorem error_entry_looks_like_a_reply `{Browser} (w : World) (jid : nat) (e : Error) :
  awaiting (BodyPromise jid) (waiting w) = Some after_json ->
  exists n : Node,
    renders (Settles (BodyPromise jid) (inl e)) w n
    /\ renders (Settles (BodyPromise jid)
                  (inr (VObject [(js "response",
                                  VString (js "Error: " ++ error_message e))]))) w n
    /\ has_class (js "bot-message") n = true
    /\ has_class (js "user-message") n = false
    /\ textContent n = js "Error: " ++ error_message e.
Proof.
  intros Hk. exists (error_node (error_message e)). repeat split.
  - apply (renders_appended _ _ after_json); [exact Hk|apply run_after_json_rejected].
  - apply (renders_appended _ _ after_json); [exact Hk|]. apply run_after_json.
  - apply textContent_message_node.
Qed.

Lemma error_entry_looks_like_a_reply_witness :
  exists n : Node,
    renders (Settles (BodyPromise 1) (inl (mkError (js "SyntaxError") (js "bad JSON"))))
      hi_answered n
    /\ renders (Settles (BodyPromise 1)
                  (inr (VObject [(js "response", VString (js "Error: bad JSON"))])))
         hi_answered n.
Proof.
  destruct (error_entry_looks_like_a_reply (H := chromium) hi_answered 1
              (mkError (js "SyntaxError") (js "bad JSON")) eq_refl)
    as (n & Hfail & Hreply & _).
  exists n. split; assumption.
Defined.

(** ** The body as text *)

Lemma well_paired_plain (a b : JSString) :
  forallb (fun c => negb (is_leading_surrogate c || is_trailing_surrogate c)) a = true ->
  well_paired (a ++ b) = well_paired b.
Proof.
  induction a as [|c a IH]; [reflexivity|].
  cbn [forallb app well_paired]. intros Ha. apply andb_prop in Ha as [Hc Ha].
  apply negb_true_iff, orb_false_elim in Hc as [-> ->]. cbn [negb andb]. now apply IH.
Qed.

Lemma below_surrogates (c : N) :
  c < 0xD800 -> is_leading_surrogate c || is_trailing_surrogate c = false.
Proof.
  intros Hc. unfold is_leading_surrogate, is_trailing_surrogate.
  destruct (N.leb_spec 0xD800 c); [lia|]. destruct (N.leb_spec 0xDC00 c); [lia|].
  reflexivity.
Qed.

Lemma hex_digit_range (n : N) : n < 16 -> 48 <= hex_digit n <= 102.
Proof. intros Hn. unfold hex_digit. destruct (N.ltb_spec n 10); lia. Qed.

Lemma plain_printable_below (l : JSString) :
  Forall (fun c => 0x20 <= c < 0xD800) l ->
  forallb (fun c => negb (is_leading_surrogate c || is_trailing_surrogate c)) l = true
  /\ forallb (N.leb 0x20) l = true.
Proof.
  induction 1 as [|c l [Hlo Hhi] _ [IH1 IH2]]; [split; reflexivity|].
  cbn [forallb]. rewrite IH1, IH2, below_surrogates by exact Hhi.
  split; [reflexivity|]. apply andb_true_intro. split; [|reflexivity].
  now apply N.leb_le.
Qed.

(** What stands for one code unit is printable and holds no surrogate. *)
Lemma quote_unit_safe (c : N) :
  forallb (fun c => negb (is_leading_surrogate c || is_trailing_surrogate c))
    (quote_unit c) = true
  /\ forallb (N.leb 0x20) (quote_unit c) = true.
Proof.
  unfold quote_unit.
  destruct (c =? 0x08); [split; reflexivity|].
  destruct (c =? 0x09); [split; reflexivity|].
  destruct (c =? 0x0A); [split; reflexivity|].
  destruct (c =? 0x0C); [split; reflexivity|].
  destruct (c =? 0x0D); [split; reflexivity|].
  destruct (c =? 0x22); [split; reflexivity|].
  destruct (c =? 0x5C); [split; reflexivity|].
  destruct ((c <? 0x20) || is_leading_surrogate c || is_trailing_surrogate c) eqn:Hesc.
  - apply plain_printable_below. unfold UnicodeEscape.
    pose proof (hex_digit_range (c / 4096 mod 16) ltac:(apply N.mod_lt; lia)).
    pose proof (hex_digit_range (c / 256 mod 16) ltac:(apply N.mod_lt; lia)).
    pose proof (hex_digit_range (c / 16 mod 16) ltac:(apply N.mod_lt; lia)).
    pose proof (hex_digit_range (c mod 16) ltac:(apply N.mod_lt; lia)).
    repeat constructor; lia.
  - apply orb_false_elim in Hesc as [Hesc Htrail].
    apply orb_false_elim in Hesc as [Hlow Hlead].
    cbn [forallb]. rewrite Hlead, Htrail. split; [reflexivity|].
    apply N.ltb_ge in Hlow. apply andb_true_intro. split; [|reflexivity].
    now apply N.leb_le.
Qed.

(** The inside of a quoted string is printable and leaves no surrogate
    alone, whatever the string. *)
Lemma quote_units_safe (s : JSString) :
  (forall tail, well_paired (quote_units s ++ tail) = well_paired tail)
  /\ forallb (N.leb 0x20) (quote_units s) = true.
Proof.
  remember (List.length s) as n eqn:Hn.
  revert s Hn. induction n as [n IH] using lt_wf_ind. intros s Hn.
  destruct s as [|c [|d s]].
  - split; reflexivity.
  - cbn [quote_units]. destruct (quote_unit_safe c) as (Hplain & Hprint).
    split; [|exact Hprint]. intros tail. now apply well_paired_plain.
  - rewrite quote_units_two.
    destruct (is_leading_surrogate c && is_trailing_surrogate d) eqn:Hpair.
    + apply andb_prop in Hpair as [Hc Hd].
      assert (Hlt : (List.length s < n)%nat) by (subst n; cbn [List.length]; lia).
      destruct (IH _ Hlt s eq_refl) as (IHpair & IHprint).
      split.
      * intros tail. cbn [app well_paired]. rewrite Hc, Hd. apply IHpair.
      * cbn [forallb]. rewrite IHprint.
        unfold is_leading_surrogate in Hc. unfold is_trailing_surrogate in Hd.
        apply andb_prop in Hc as [Hc _]. apply andb_prop in Hd as [Hd _].
        apply N.leb_le in Hc, Hd.
        replace (32 <=? c) with true by (symmetry; apply N.leb_le; lia).
        replace (32 <=? d) with true by (symmetry; apply N.leb_le; lia).
        reflexivity.
    + assert (Hlt : (List.length (d :: s) < n)%nat) by (subst n; cbn [List.length]; lia).
      destruct (IH _ Hlt (d :: s) eq_refl) as (IHpair & IHprint).
      destruct (quote_unit_safe c) as (Hplain & Hprint).
      split.
      * intros tail. rewrite <- app_assoc, well_paired_plain by exact Hplain.
        apply IHpair.
      * now rewrite forallb_app, Hprint, IHprint.
Qed.

(** X10: whatever the user has typed (quotes, backslashes, line breaks,
    control characters, halves of a surrogate pair), the body that line
    14 builds is printable text with no surrogate left alone, so that
    encoding it for the wire loses nothing, and it reads back as the
    text that was typed. *)
Theorem body_is_clean_text (message : JSString) :
  exists b : JSString,
    JSON_stringify (VObject [(js "message", VString message)]) = Some b
    /\ forallb (N.leb 0x20) b = true
    /\ well_paired b = true
    /\ message_of_body b = Some message.
Proof.
  exists (js "{" ++ QuoteJSONString (js "message") ++ js ":"
          ++ QuoteJSONString message ++ js "}").
  destruct (quote_units_safe message) as (Hpair & Hprint).
  split; [reflexivity|]. split; [|split].
  - change (js "{" ++ QuoteJSONString (js "message") ++ js ":"
            ++ QuoteJSONString message ++ js "}")
      with ((js "{" ++ QuoteJSONString (js "message") ++ js ":" ++ [34])
            ++ (quote_units message ++ [34]) ++ js "}").
    now rewrite !forallb_app, Hprint.
  - change (js "{" ++ QuoteJSONString (js "message") ++ js ":"
            ++ QuoteJSONString message ++ js "}")
      with ((js "{" ++ QuoteJSONString (js "message") ++ js ":" ++ [34])
            ++ (quote_units message ++ [34]) ++ js "}").
    rewrite well_paired_plain by reflexivity. now rewrite <- app_assoc, Hpair.
  - pose proof (message_of_chat_body message) as Hm.
    cbn [chat_request body option_map] in Hm. congruence.
Qed.

(** X11: two different texts never give the same body: if the bodies
    that line 14 builds for two texts are equal, the texts are equal. *)
Theorem different_texts_different_bodies (m1 m2 : JSString) :
  JSON_stringify (VObject [(js "message", VString m1)])
  = JSON_stringify (VObject [(js "message", VString m2)]) ->
  m1 = m2.
Proof.
  intros Heq.
  pose proof (message_of_chat_body m1) as H1.
  pose proof (message_of_chat_body m2) as H2.
  change (body (chat_request m1))
    with (JSON_stringify (VObject [(js "message", VString m1)])) in H1.
  change (body (chat_request m2))
    with (JSON_stringify (VObject [(js "message", VString m2)])) in H2.
  rewrite Heq in H1. congruence.
Qed.

Lemma different_texts_different_bodies_witness :
  JSON_stringify (VObject [(js "message", VString (js "Hi"))])
  = JSON_stringify (VObject [(js "message", VString (trim (js " Hi ")))])
  /\ js "Hi" = trim (js " Hi ").
Proof.
  assert (Heq : JSON_stringify (VObject [(js "message", VString (js "Hi"))])
                = JSON_stringify (VObject [(js "message", VString (trim (js " Hi ")))]))
    by reflexivity.
  split; [exact Heq|].
  exact (different_texts_different_bodies (js "Hi") (trim (js " Hi ")) Heq).
Defined.
